(** * anthropair: settings route, client task cache, room relay, task store

    A shallow embedding of the JavaScript sources

    - the settings route ([maskSecret], [parseEnvValues], [updateEnvFile],
      the GET and POST handlers of [/api/settings]),
    - [client/panels/task-queue.js] ([handleTaskUpdate]),
    - [client/panels/screen-share.js] (the [RoomEvent.DataReceived] handler),
    - [client/panels/settings.js] (the save handler of the settings form),

    and of the task store that the specification describes.

    JavaScript strings are modelled by [string]: a sequence of code units,
    here restricted to the code units below 256. *)

From Stdlib Require Import String Ascii List ZArith Lia Bool.
From stdpp Require Import base gmap strings list pretty.

(** ** JavaScript string primitives *)

Module Js.

(** The line feed, the separator of [split('\n')] and [join('\n')]. *)
Definition NL : ascii := "010"%char.

Definition is_nl (c : ascii) : bool := bool_decide (c = NL).

(** White space as [String.prototype.trim] removes it: TAB, LF, VT, FF, CR,
    SPACE and NBSP are the white-space and line-terminator code units
    below 256. *)
Definition is_ws (c : ascii) : bool :=
  match c with
  | "009" | "010" | "011" | "012" | "013" | " " | "160" => true
  | _ => false
  end%char.

(** [s.split('\n')]: never empty, [''.split('\n')] is [['']]. *)
Fixpoint split_nl (s : string) : list string :=
  match s with
  | EmptyString => [EmptyString]
  | String c r =>
      if is_nl c then EmptyString :: split_nl r
      else match split_nl r with
           | h :: t => String c h :: t
           | [] => [String c EmptyString]
           end
  end.

(** [l.join('\n')]. *)
Fixpoint join_nl (l : list string) : string :=
  match l with
  | [] => ""
  | [x] => x
  | x :: r => x +:+ String NL (join_nl r)
  end.

(** Removal of the longest prefix, respectively suffix, of code units that
    satisfy [p]. *)
Fixpoint dropStartWhile (p : ascii → bool) (s : string) : string :=
  match s with
  | EmptyString => ""
  | String c r => if p c then dropStartWhile p r else s
  end.

Fixpoint dropEndWhile (p : ascii → bool) (s : string) : string :=
  match s with
  | EmptyString => ""
  | String c r =>
      match dropEndWhile p r with
      | EmptyString => if p c then "" else String c ""
      | t => String c t
      end
  end.

(** [s.trim()]. *)
Definition trim (s : string) : string :=
  dropEndWhile is_ws (dropStartWhile is_ws s).

(** [s.indexOf(c)] for a one-character needle; [None] stands for [-1]. *)
Fixpoint indexOf (c : ascii) (s : string) : option nat :=
  match s with
  | EmptyString => None
  | String d r =>
      if bool_decide (d = c) then Some 0
      else S <$> indexOf c r
  end.

(** [s.slice(0, n)] and [s.slice(n)] for [0 <= n]. *)
Fixpoint slice_to (n : nat) (s : string) : string :=
  match n, s with
  | S n', String c r => String c (slice_to n' r)
  | _, _ => ""
  end.

Fixpoint slice_from (n : nat) (s : string) : string :=
  match n, s with
  | S n', String _ r => slice_from n' r
  | _, _ => s
  end.

(** [s.slice(-n)]: the last [n] code units, all of [s] when it is shorter. *)
Definition slice_last (n : nat) (s : string) : string :=
  slice_from (String.length s - n) s.

(** [s.startsWith(p)]. *)
Fixpoint startsWith (s p : string) {struct p} : bool :=
  match p, s with
  | EmptyString, _ => true
  | String a p', String b s' => bool_decide (a = b) && startsWith s' p'
  | String _ _, EmptyString => false
  end.

(** [s.replace(/\n*$/, '\n')]: without the [m] flag [$] is the end of the
    input, so the first match is the whole trailing run of line feeds. *)
Definition replaceTrailingNewlines (s : string) : string :=
  dropEndWhile is_nl s +:+ String NL "".

(** A string is falsy exactly when it is empty. *)
Definition truthy (s : string) : bool :=
  match s with EmptyString => false | _ => true end.

End Js.

(** ** JavaScript values and plain objects *)

(** The values [JSON.parse] and the body parser hand to the handlers.
    Numbers are kept as integers: the handlers only ask whether a value is a
    string, whether it is truthy and whether [typeof] says ['object']. An
    object carries its own enumerable properties in the order of
    [Object.entries]. *)
#[warnings="-register-all"] Inductive jsvalue : Type :=
  | JUndefined
  | JNull
  | JBool (b : bool)
  | JNumber (n : Z)
  | JString (s : string)
  | JArray (items : list jsvalue)
  | JObject (props : list (string * jsvalue)).

Definition js_truthy (v : jsvalue) : bool :=
  match v with
  | JUndefined | JNull => false
  | JBool b => b
  | JNumber n => negb (n =? 0)%Z
  | JString s => Js.truthy s
  | JArray _ | JObject _ => true
  end.

(** [typeof v === 'object'] *)
Definition typeof_object (v : jsvalue) : bool :=
  match v with
  | JNull | JArray _ | JObject _ => true
  | _ => false
  end.

(** [v === s] for a string [s] *)
Definition strictEqString (v : jsvalue) (s : string) : bool :=
  match v with
  | JString x => bool_decide (x = s)
  | _ => false
  end.

(** [Object.entries(v)] *)
Definition objectEntries (v : jsvalue) : list (string * jsvalue) :=
  match v with
  | JObject props => props
  | JArray items => imap (λ i x, (pretty i, x)) items
  | _ => []
  end.

(** [v.name] on a parsed JSON value whose property [name] is not one of
    [Object.prototype]: the own property, [undefined] when there is none.
    [None] is the [TypeError] of a property access on [null] or
    [undefined]. *)
Definition getProp (v : jsvalue) (name : string) : option jsvalue :=
  match v with
  | JUndefined | JNull => None
  | JObject props =>
      Some (match find (λ p, bool_decide (p.1 = name)) props with
            | Some p => p.2
            | None => JUndefined
            end)
  | _ => Some JUndefined
  end.

(** A plain object ([{}]) all of whose own properties hold strings, given by
    its entries in enumeration order. *)
Module Obj.

Abbreviation t := (list (string * string)).

(** The own property [k]. *)
Definition own (o : t) (k : string) : option string :=
  snd <$> find (λ p, bool_decide (p.1 = k)) o.

(** What the template literal [`${o[k]}`] gives for a property that [{}]
    inherits from [Object.prototype] (as printed by V8). *)
Definition inheritedText (k : string) : option string :=
  if bool_decide (k = "__proto__") then Some "[object Object]"
  else if bool_decide (k = "constructor") then Some "function Object() { [native code] }"
  else if bool_decide (k ∈ ["__defineGetter__"; "__defineSetter__"; "hasOwnProperty";
                            "__lookupGetter__"; "__lookupSetter__"; "isPrototypeOf";
                            "propertyIsEnumerable"; "toString"; "valueOf";
                            "toLocaleString"])
  then Some ("function " +:+ k +:+ "() { [native code] }")
  else None.

(** [k in o]: own or inherited. *)
Definition has (o : t) (k : string) : bool :=
  bool_decide (is_Some (own o k)) || bool_decide (is_Some (inheritedText k)).

(** [`${o[k]}`] *)
Definition text (o : t) (k : string) : string :=
  match own o k with
  | Some v => v
  | None => default "undefined" (inheritedText k)
  end.

(** [o[k] = v] for a key that is neither an array index nor [__proto__]: an
    existing property keeps its place, a new one goes last. *)
Fixpoint set (o : t) (k v : string) : t :=
  match o with
  | [] => [(k, v)]
  | (k', v') :: r => if bool_decide (k' = k) then (k, v) :: r else (k', v') :: set r k v
  end.

End Obj.

(** ** The settings route *)

Module Settings.

Inductive fieldType := secret | text | select.

Record field := Field {
  key : string;
  label : string;
  type : fieldType;
  restart : bool;
  options : list (string * string)
}.

Definition SETTINGS_SCHEMA : list field :=
  [ Field "ANTHROPIC_API_KEY" "Anthropic API Key" secret false [];
    Field "CLAUDE_MODEL" "Claude Model" select false
      [ ("", "Default — let SDK choose");
        ("claude-opus-4-6", "Claude Opus 4.6");
        ("claude-sonnet-4-5-20250929", "Claude Sonnet 4.5");
        ("claude-haiku-4-5-20251001", "Claude Haiku 4.5") ];
    Field "LIVEKIT_API_KEY" "LiveKit API Key" secret false [];
    Field "LIVEKIT_API_SECRET" "LiveKit API Secret" secret false [];
    Field "LIVEKIT_WS_URL" "LiveKit WebSocket URL" text false [];
    Field "PORT" "Server Port" text true [] ].

Definition ALLOWED_KEYS : gset string := list_to_set (key <$> SETTINGS_SCHEMA).

Definition maskSecret (value : string) : string :=
  if negb (Js.truthy value) || (String.length value <? 4)
  then (if Js.truthy value then "****" else "")
  else "****" +:+ Js.slice_last 4 value.

(** The part of the process the route touches: the [.env] file of the
    working directory ([None] when it does not exist) and [process.env]. *)
Record Server := {
  envFile : option string;
  processEnv : gmap string string
}.

Definition readEnvFile (st : Server) : string := default "" (envFile st).

(** [values[key] = val] on the object [values = {}]: an own property, except
    that assigning a string to [__proto__] leaves the object as it is. *)
Definition assign (values : gmap string string) (k v : string) : gmap string string :=
  if bool_decide (k = "__proto__") then values else <[k:=v]> values.

(** The body of the loop of [parseEnvValues]. *)
Definition parseLine (values : gmap string string) (line : string) : gmap string string :=
  let trimmed := Js.trim line in
  if negb (Js.truthy trimmed) || Js.startsWith trimmed "#" then values
  else match Js.indexOf "=" trimmed with
       | None => values
       | Some eqIdx =>
           let key := Js.trim (Js.slice_to eqIdx trimmed) in
           let val := Js.trim (Js.slice_from (S eqIdx) trimmed) in
           assign values key val
       end.

Definition parseEnvValues (content : string) : gmap string string :=
  fold_left parseLine (Js.split_nl content) ∅.

(** The callback of [lines.map] in [updateEnvFile]; it also adds to the set
    [written], which is threaded along with the lines produced so far. *)
Definition updateLine (updates : Obj.t) (acc : list string * gset string) (line : string)
  : list string * gset string :=
  let '(updated, written) := acc in
  let trimmed := Js.trim line in
  if negb (Js.truthy trimmed) || Js.startsWith trimmed "#" then (updated ++ [line], written)
  else match Js.indexOf "=" trimmed with
       | None => (updated ++ [line], written)
       | Some eqIdx =>
           let key := Js.trim (Js.slice_to eqIdx trimmed) in
           if Obj.has updates key
           then (updated ++ [key +:+ "=" +:+ Obj.text updates key], {[key]} ∪ written)
           else (updated ++ [line], written)
       end.

(** The body of the loop that appends the keys not yet in the file. *)
Definition appendNew (written : gset string) (updated : list string) (entry : string * string)
  : list string :=
  let '(key, val) := entry in
  if bool_decide (key ∈ written) then updated else updated ++ [key +:+ "=" +:+ val].

(** The array [updated] of [updateEnvFile] just before it is joined. *)
Definition updatedLines (content : string) (updates : Obj.t) : list string :=
  let '(updated, written) := fold_left (updateLine updates) (Js.split_nl content) ([], ∅) in
  fold_left (appendNew written) updates updated.

(** The text [updateEnvFile] writes when the file held [content]. *)
Definition updateEnvContent (content : string) (updates : Obj.t) : string :=
  Js.replaceTrailingNewlines (Js.join_nl (updatedLines content updates)).

Definition updateEnvFile (updates : Obj.t) (st : Server) : Server :=
  {| envFile := Some (updateEnvContent (readEnvFile st) updates);
     processEnv := processEnv st |}.

(** [a || b] on values that are a string or [undefined]. *)
Definition or_else (a b : option string) : option string :=
  match a with
  | Some s => if Js.truthy s then a else b
  | None => b
  end.

(** [a ?? b] on values that are a string or [undefined]. *)
Definition nullish (a b : option string) : option string :=
  match a with
  | Some _ => a
  | None => b
  end.

(** GET [/api/settings]: every schema field with its current value. The
    schema keys are not properties of [Object.prototype], so [values[key]]
    is the own property. *)
Definition fieldValue (st : Server) (f : field) : string :=
  let values := parseEnvValues (readEnvFile st) in
  match type f with
  | secret =>
      maskSecret (default "" (or_else (or_else (values !! key f) (processEnv st !! key f)) (Some "")))
  | _ =>
      default "" (nullish (nullish (values !! key f) (processEnv st !! key f)) (Some ""))
  end.

Definition get (st : Server) : list (field * string) :=
  map (λ f, (f, fieldValue st f)) SETTINGS_SCHEMA.

(** The two responses of POST: [res.status(400).json({ error })] and
    [res.json({ ok: true, restartNeeded })]. *)
Inductive Response :=
  | BadRequest (error : string)
  | Ok (restartNeeded : bool).

(** [SETTINGS_SCHEMA.find(s => s.key === key)?.restart], as a condition. *)
Definition restartFlag (k : string) : bool :=
  match find (λ s, bool_decide (key s = k)) SETTINGS_SCHEMA with
  | Some f => restart f
  | None => false
  end.

(** The body of the loop of POST over [Object.entries(updates)]; the state
    is [filtered], [process.env] and [restartNeeded]. *)
Definition postStep (acc : Obj.t * gmap string string * bool) (entry : string * jsvalue)
  : Obj.t * gmap string string * bool :=
  let '(filtered, env, restartNeeded) := acc in
  let '(k, value) := entry in
  if negb (bool_decide (k ∈ ALLOWED_KEYS)) then acc
  else match value with
       | JString s =>
           (Obj.set filtered k s, <[k:=s]> env, if restartFlag k then true else restartNeeded)
       | _ => acc
       end.

Definition post (body : jsvalue) (st : Server) : Response * Server :=
  if negb (js_truthy body) || negb (typeof_object body)
  then (BadRequest "Expected object body", st)
  else
    let '(filtered, env, restartNeeded) :=
      fold_left postStep (objectEntries body) ([], processEnv st, false) in
    let st1 := {| envFile := envFile st; processEnv := env |} in
    (Ok restartNeeded,
     if 0 <? length filtered then updateEnvFile filtered st1 else st1).

End Settings.

(** ** The client cache of tasks ([client/panels/task-queue.js]) *)

(** Modelled from the spec: the sources use the fields of a task and do not
    declare it. The four values of [status]. *)
Inductive Status := Pending | Approved | Rejected | Done.

(** Modelled from the spec: the task record of the data model, with [id],
    [status], [payload], [createdAt] and [resolvedBy] ([None] is [null]). *)
Record Task := {
  id : nat;
  status : Status;
  payload : string;
  createdAt : Z;
  resolvedBy : option string
}.

Global Instance Status_eq_dec : EqDecision Status.
Proof. solve_decision. Defined.

Global Instance Task_eq_dec : EqDecision Task.
Proof. solve_decision. Defined.

Module TaskQueue.

(** Modelled from the spec: [lib/state.js] is not among the sources. Its
    [updateInArray(key, id, record)] is taken to replace the record for that
    id, and [appendState(key, item)] to insert the item at the end of the
    list, which is what the specification says the cache does with an
    update: it replaces the record for that id if present and inserts it
    otherwise. *)
Definition updateInArray (tasks : list Task) (i : nat) (t : Task) : list Task :=
  (λ x, if bool_decide (id x = i) then t else x) <$> tasks.

(** Modelled from the spec: [appendState(key, item)] of [lib/state.js],
    which is not among the sources, inserts the item at the end of the
    list. *)
Definition appendState {A : Type} (items : list A) (item : A) : list A :=
  items ++ [item].

(** The message [{ type: 'task:update', task }]. *)
Record TaskUpdate := { task : Task }.

(** [handleTaskUpdate], as a function of the list that [getState('tasks')]
    returns. *)
Definition handleTaskUpdate (msg : TaskUpdate) (tasks : list Task) : list Task :=
  match find (λ t, bool_decide (id t = id (task msg))) tasks with
  | Some existing => updateInArray tasks (id (task msg)) (task msg)
  | None => appendState tasks (task msg)
  end.

End TaskQueue.

(** ** The room relay ([client/panels/screen-share.js]) *)

Module ScreenShare.

(** What the handler of [RoomEvent.DataReceived] reads and writes:
    [localIdentity], the list [roomMessages] of the state, the calls of
    [injectCognateMessage(text, sender)] made so far and the warnings
    logged by the [catch]. *)
Record Client := {
  localIdentity : string;
  roomMessages : list jsvalue;
  cognateMessages : list (string * jsvalue);
  warnings : nat
}.

(** Modelled from the spec: [chat.js] is not among the sources; a call of
    [injectCognateMessage] is recorded as relayed agent-chat content. *)
Definition injectCognateMessage (text : string) (sender : jsvalue) (c : Client) : Client :=
  {| localIdentity := localIdentity c;
     roomMessages := roomMessages c;
     cognateMessages := cognateMessages c ++ [(text, sender)];
     warnings := warnings c |}.

(** [appendState('roomMessages', msg)], see [TaskQueue.appendState]. *)
Definition appendRoomMessage (msg : jsvalue) (c : Client) : Client :=
  {| localIdentity := localIdentity c;
     roomMessages := TaskQueue.appendState (roomMessages c) msg;
     cognateMessages := cognateMessages c;
     warnings := warnings c |}.

(** The [catch] branch: [console.warn]. *)
Definition warn (c : Client) : Client :=
  {| localIdentity := localIdentity c;
     roomMessages := roomMessages c;
     cognateMessages := cognateMessages c;
     warnings := S (warnings c) |}.

(** [msg.sender || participant?.identity || 'unknown'] *)
Definition senderOf (msg_sender : jsvalue) (participant : option string) : jsvalue :=
  if js_truthy msg_sender then msg_sender
  else match participant with
       | Some identity => if Js.truthy identity then JString identity else JString "unknown"
       | None => JString "unknown"
       end.

(** The handler. [parsed] is the result of [JSON.parse] on the decoded
    payload, [None] when it throws; [participant] is
    [participant?.identity], [None] for [undefined]. *)
Definition onDataReceived (parsed : option jsvalue) (participant : option string)
    (c : Client) : Client :=
  match parsed with
  | None => warn c
  | Some msg =>
      match getProp msg "type" with
      | None => warn c
      | Some type =>
          if strictEqString type "room:chat" then
            if bool_decide (participant ≠ Some (localIdentity c)) then
              match getProp msg "text", getProp msg "sender" with
              | Some text, Some sender =>
                  if js_truthy text then
                    match text with
                    | JString s =>
                        if Js.startsWith s "cognate:"
                        then injectCognateMessage
                               (Js.slice_from (String.length "cognate:") s)
                               (senderOf sender participant) c
                        else appendRoomMessage msg c
                    | _ => warn c
                    end
                  else appendRoomMessage msg c
              | _, _ => warn c
              end
            else c
          else c
      end
  end.

End ScreenShare.

(** ** The save handler of the settings form ([client/panels/settings.js]) *)

Module SettingsPanel.

(** An element of [.form-input]: [dataset.key], [dataset.type], [value]. *)
Record Input := {
  dataKey : string;
  dataType : string;
  value : string
}.

(** [settings.find(s => s.key === key)?.value || ''] on the settings the
    form was opened with. *)
Definition original (settings : list (Settings.field * string)) (key : string) : string :=
  match find (λ s, bool_decide (Settings.key s.1 = key)) settings with
  | Some s => if Js.truthy s.2 then s.2 else ""
  | None => ""
  end.

(** The body of the loop over the inputs. *)
Definition collect (settings : list (Settings.field * string)) (updates : Obj.t)
    (input : Input) : Obj.t :=
  let key := dataKey input in
  let type := dataType input in
  let val := Js.trim (value input) in
  if bool_decide (type = "secret") && negb (Js.truthy val) then updates
  else if (bool_decide (type = "text") || bool_decide (type = "select"))
          && bool_decide (val = original settings key) then updates
  else Obj.set updates key val.

(** The object [updates] the handler posts (nothing is sent when it is
    empty). *)
Definition collectUpdates (settings : list (Settings.field * string))
    (inputs : list Input) : Obj.t :=
  fold_left (collect settings) inputs [].

End SettingsPanel.

(** ** The task store *)

Module TaskStore.

(** Modelled from the spec: the server's task store is not among the
    sources. The store holds the mapping from task identifier to task record
    and the identifiers in creation order; it notifies its subscribers of
    every mutation. [createTask] allocates a new identifier and sets the
    status [pending] and [resolvedBy = null]; it fails only if the store is
    shut down. [resolveTask] is a compare-and-set on the status: [NotFound]
    for an unknown id, [AlreadyResolved] with the current, unchanged record
    when the task is not [pending], else it sets [status = decision] and
    [resolvedBy = clientId]. [markDone] requires the status [approved] and
    fails with [InvalidTransition] otherwise. *)
Inductive Event :=
  | TaskCreated (t : Task)
  | TaskUpdated (t : Task).

(** Modelled from the spec: the state of the task store. *)
Record Store := {
  tasks : gmap nat Task;
  order : list nat;
  nextId : nat;
  shutDown : bool;
  emitted : list Event
}.

(** Modelled from the spec: the store of a process that has just started. *)
Definition empty : Store :=
  {| tasks := ∅; order := []; nextId := 0; shutDown := false; emitted := [] |}.

(** Modelled from the spec: the two decisions of [resolveTask]. *)
Inductive Decision := approved | rejected.

(** Modelled from the spec: the status a decision sets. *)
Definition statusOf (d : Decision) : Status :=
  match d with
  | approved => Approved
  | rejected => Rejected
  end.

(** Modelled from the spec: the error taxonomy. *)
Inductive Error := StoreShutDown | NotFound | AlreadyResolved | InvalidTransition.

(** Modelled from the spec: the result of an operation, the task or the
    error together with the current record where the operation found one. *)
Inductive Result :=
  | Success (t : Task)
  | Failure (e : Error) (current : option Task).

(** Modelled from the spec: [createTask(payload)], with the clock reading
    that becomes [createdAt]. *)
Definition createTask (payload : string) (now : Z) (s : Store) : Result * Store :=
  if shutDown s then (Failure StoreShutDown None, s)
  else
    let t := {| id := nextId s; status := Pending; payload := payload;
                createdAt := now; resolvedBy := None |} in
    (Success t,
     {| tasks := <[nextId s := t]> (tasks s);
        order := order s ++ [nextId s];
        nextId := S (nextId s);
        shutDown := shutDown s;
        emitted := emitted s ++ [TaskCreated t] |}).

(** Modelled from the spec: the store after the record of [t] has been
    replaced and the update notified. *)
Definition put (t : Task) (s : Store) : Store :=
  {| tasks := <[id t := t]> (tasks s);
     order := order s;
     nextId := nextId s;
     shutDown := shutDown s;
     emitted := emitted s ++ [TaskUpdated t] |}.

(** Modelled from the spec: [resolveTask(id, decision, clientId)]. *)
Definition resolveTask (i : nat) (decision : Decision) (clientId : string) (s : Store)
  : Result * Store :=
  match tasks s !! i with
  | None => (Failure NotFound None, s)
  | Some t =>
      match status t with
      | Pending =>
          let t' := {| id := id t; status := statusOf decision; payload := payload t;
                       createdAt := createdAt t; resolvedBy := Some clientId |} in
          (Success t', put t' s)
      | _ => (Failure AlreadyResolved (Some t), s)
      end
  end.

(** Modelled from the spec: [markDone(id)]. *)
Definition markDone (i : nat) (s : Store) : Result * Store :=
  match tasks s !! i with
  | None => (Failure NotFound None, s)
  | Some t =>
      match status t with
      | Approved =>
          let t' := {| id := id t; status := Done; payload := payload t;
                       createdAt := createdAt t; resolvedBy := resolvedBy t |} in
          (Success t', put t' s)
      | _ => (Failure InvalidTransition (Some t), s)
      end
  end.

(** Modelled from the spec: [listTasks()], the snapshot in creation order. *)
Definition listTasks (s : Store) : list Task :=
  omap (λ i, tasks s !! i) (order s).

(** Modelled from the spec: the calls that mutate tasks. *)
Inductive Call :=
  | CallCreateTask (payload : string) (now : Z)
  | CallResolveTask (i : nat) (decision : Decision) (clientId : string)
  | CallMarkDone (i : nat).

(** Modelled from the spec: the result and the store after a call. *)
Definition call (c : Call) (s : Store) : Result * Store :=
  match c with
  | CallCreateTask payload now => createTask payload now s
  | CallResolveTask i decision clientId => resolveTask i decision clientId s
  | CallMarkDone i => markDone i s
  end.

(** Modelled from the spec: the store after a sequence of calls. *)
Definition run (calls : list Call) (s : Store) : Store :=
  fold_left (λ s c, (call c s).2) calls s.

(** Modelled from the spec: the record stored under an identifier carries
    it, and the identifiers in use are below the next one to be allocated
    (identifiers are unique and immutable). *)
Definition wf (s : Store) : Prop :=
  ∀ i t, tasks s !! i = Some t → id t = i ∧ i < nextId s.

(** Modelled from the spec: one move of the status as the data model allows
    it, [pending → approved], [pending → rejected], [approved → done]. *)
Definition transition (a b : Status) : Prop :=
  (a = Pending ∧ b = Approved) ∨ (a = Pending ∧ b = Rejected) ∨ (a = Approved ∧ b = Done).

End TaskStore.

(** ** Vocabulary for the statements about the [.env] file *)

Module Env.

Import Js.

(** [c] occurs in [s]. *)
Fixpoint contains (c : ascii) (s : string) : bool :=
  match s with
  | EmptyString => false
  | String d r => bool_decide (d = c) || contains c r
  end.

Definition nl_free (s : string) : Prop := contains NL s = false.

(** [n] line feeds. *)
Fixpoint newlines (n : nat) : string :=
  match n with
  | 0 => ""
  | S n' => String NL (newlines n')
  end.

(** The last code unit of a string. *)
Fixpoint lastChar (s : string) : option ascii :=
  match s with
  | EmptyString => None
  | String c EmptyString => Some c
  | String _ r => lastChar r
  end.

(** The key and the value that [parseEnvValues] and [updateEnvFile] read off
    a line; [None] for a blank line, a comment and a line without [=]. *)
Definition lineEntry (line : string) : option (string * string) :=
  let trimmed := trim line in
  if negb (truthy trimmed) || startsWith trimmed "#" then None
  else match indexOf "=" trimmed with
       | None => None
       | Some eqIdx =>
           Some (trim (slice_to eqIdx trimmed), trim (slice_from (S eqIdx) trimmed))
       end.

(** The keys of the key-value lines of a file. *)
Definition fileKeys (lines : list string) : list string :=
  fst <$> omap lineEntry lines.

(** A key that a line [key=value] gives back when it is read: no white
    space around it, no [=] in it, no [#] in front, and not [__proto__]. *)
Definition keyOk (k : string) : bool :=
  bool_decide (trim k = k) && negb (contains "=" k) && negb (startsWith k "#")
  && negb (bool_decide (k = "__proto__")).

(** Updates that are written one per line and read back: distinct keys (the
    own properties of an object), each of them [keyOk], and no line feed in
    a key or a value. *)
Definition wellFormed (updates : Obj.t) : bool :=
  bool_decide (NoDup (fst <$> updates))
  && forallb (λ kv, keyOk kv.1 && negb (contains NL kv.1) && negb (contains NL kv.2)) updates.

(** What the callback of [lines.map] returns for a line. *)
Definition rewriteLine (updates : Obj.t) (line : string) : string :=
  match lineEntry line with
  | Some (k, _) => if Obj.has updates k then k +:+ "=" +:+ Obj.text updates k else line
  | None => line
  end.

(** The line written for an entry of [updates]. *)
Definition entryLine (kv : string * string) : string := kv.1 +:+ "=" +:+ kv.2.

(** The lines appended for the keys that no line of the file has. *)
Definition newLines (lines : list string) (updates : Obj.t) : list string :=
  entryLine <$> filter (λ kv, kv.1 ∉ fileKeys lines) updates.

(** The entry read off a line after [rewriteLine]. *)
Definition rewriteEntry (updates : Obj.t) (e : string * string) : string * string :=
  if Obj.has updates e.1 then (e.1, trim (Obj.text updates e.1)) else e.

(** The value of the last entry for [k]. *)
Fixpoint lastVal (k : string) (entries : list (string * string)) : option string :=
  match entries with
  | [] => None
  | (k', v) :: r =>
      match lastVal k r with
      | Some x => Some x
      | None => if bool_decide (k' = k) then Some v else None
      end
  end.

(** The updates of a POST body that are applied: allow-listed key, string
    value. *)
Definition applied (entries : list (string * jsvalue)) : list (string * string) :=
  omap (λ kv, if bool_decide (kv.1 ∈ Settings.ALLOWED_KEYS)
              then match kv.2 with
                   | JString s => Some (kv.1, s)
                   | _ => None
                   end
              else None) entries.

(** The server stores [v] for the key [k]: in the [.env] file, or in
    [process.env] when the file has no value or an empty one for [k]. *)
Definition stored (st : Settings.Server) (k v : string) : Prop :=
  let values := Settings.parseEnvValues (Settings.readEnvFile st) in
  values !! k = Some v
  ∨ ((values !! k = None ∨ values !! k = Some "") ∧ Settings.processEnv st !! k = Some v).

End Env.

(** ** Sample inputs *)

Module Sample.

(** A [.env] file with a comment, one key and blank lines at the end. *)
Definition envText : string :=
  "# keys" +:+ Env.newlines 1 +:+ "PORT=3000" +:+ Env.newlines 3.

Definition updates : Obj.t :=
  [("PORT", " 8080"); ("CLAUDE_MODEL", "claude-opus-4-6")].

Definition server : Settings.Server :=
  {| Settings.envFile := Some envText;
     Settings.processEnv := {["PORT" := "3000"]} |}.

(** A server whose [.env] file holds a secret of three characters. *)
Definition shortSecretServer : Settings.Server :=
  {| Settings.envFile := Some "ANTHROPIC_API_KEY=abc";
     Settings.processEnv := ∅ |}.

(** A room message whose text is a number, from the participant [user-b],
    and the client [user-a] that receives it. *)
Definition numberMessage : jsvalue :=
  JObject [("type", JString "room:chat"); ("text", JNumber 42); ("sender", JString "bob")].

Definition cognateMessage : jsvalue :=
  JObject [("type", JString "room:chat"); ("text", JString "cognate:hello");
           ("sender", JString "bob")].

Definition client : ScreenShare.Client :=
  {| ScreenShare.localIdentity := "user-a";
     ScreenShare.roomMessages := [];
     ScreenShare.cognateMessages := [];
     ScreenShare.warnings := 0 |}.

(** Two cached tasks and an update of the first. *)
Definition cachedTasks : list Task :=
  [ {| id := 1; status := Pending; payload := "write"; createdAt := 10; resolvedBy := None |};
    {| id := 2; status := Pending; payload := "shell"; createdAt := 11; resolvedBy := None |} ].

Definition approvedTask : Task :=
  {| id := 1; status := Approved; payload := "write"; createdAt := 10;
     resolvedBy := Some "client-a" |}.

(** A store in which task 0 has been approved by [client-a]. *)
Definition resolvedCalls : list TaskStore.Call :=
  [ TaskStore.CallCreateTask "write" 10;
    TaskStore.CallResolveTask 0 TaskStore.approved "client-a" ].

End Sample.

(** ** The definitions on small inputs *)

Module Checks.

Import Js Env Settings.

Example split_example :
  split_nl ("A=1" +:+ newlines 2 +:+ "B") = ["A=1"; ""; "B"]
  ∧ split_nl "" = [""]
  ∧ split_nl (newlines 1) = [""; ""].
Proof. by vm_compute. Qed.

Example trim_example :
  trim "  A = 1 " = "A = 1" ∧ trim (String "160" (String "009" "x")) = "x"
  ∧ trim (newlines 2) = "".
Proof. by vm_compute. Qed.

Example replace_example :
  replaceTrailingNewlines ("a" +:+ newlines 2 +:+ "b" +:+ newlines 3)
  = "a" +:+ newlines 2 +:+ "b" +:+ newlines 1
  ∧ replaceTrailingNewlines "" = newlines 1.
Proof. by vm_compute. Qed.

Example slice_last_example :
  slice_last 4 "sk-test-1234" = "1234" ∧ slice_last 4 "abc" = "abc".
Proof. by vm_compute. Qed.

Example maskSecret_example :
  maskSecret "sk-test-1234" = "****1234" ∧ maskSecret "abcd" = "****abcd"
  ∧ maskSecret "abc" = "****" ∧ maskSecret "" = "".
Proof. by vm_compute. Qed.

Example lineEntry_example :
  lineEntry "  PORT = 3000  " = Some ("PORT", "3000")
  ∧ lineEntry "# PORT=1" = None
  ∧ lineEntry "PORT" = None
  ∧ lineEntry "A=b=c" = Some ("A", "b=c")
  ∧ lineEntry "" = None.
Proof. by vm_compute. Qed.

Example parseEnvValues_example :
  parseEnvValues ("A=1" +:+ newlines 1 +:+ "# c" +:+ newlines 1 +:+ "A = 2") !! "A"
  = Some "2"
  ∧ parseEnvValues "__proto__=x" = ∅.
Proof. by vm_compute. Qed.

Example updateEnvContent_example :
  updateEnvContent Sample.envText Sample.updates
  = "# keys" +:+ newlines 1 +:+ "PORT= 8080" +:+ newlines 4
    +:+ "CLAUDE_MODEL=claude-opus-4-6" +:+ newlines 1
  ∧ updateEnvContent "" [("A", "1")] = newlines 1 +:+ "A=1" +:+ newlines 1.
Proof. by vm_compute. Qed.

Example post_example :
  (post (JObject [("PORT", JString "8080"); ("UNKNOWN_KEY", JString "x");
                  ("CLAUDE_MODEL", JNumber 3)]) Sample.server).1 = Ok true
  ∧ envFile (post (JObject [("PORT", JString "8080"); ("UNKNOWN_KEY", JString "x");
                            ("CLAUDE_MODEL", JNumber 3)]) Sample.server).2
    = Some ("# keys" +:+ newlines 1 +:+ "PORT=8080" +:+ newlines 1)
  ∧ post JNull Sample.server = (BadRequest "Expected object body", Sample.server)
  ∧ post (JArray [JString "PORT"]) Sample.server = (Ok false, Sample.server).
Proof. by vm_compute. Qed.

Example handleTaskUpdate_example :
  TaskQueue.handleTaskUpdate {| TaskQueue.task := Sample.approvedTask |} Sample.cachedTasks
  = [ Sample.approvedTask;
      {| id := 2; status := Pending; payload := "shell"; createdAt := 11;
         resolvedBy := None |} ].
Proof. by vm_compute. Qed.

Example onDataReceived_example :
  ScreenShare.onDataReceived (Some Sample.cognateMessage) (Some "user-a") Sample.client
  = Sample.client
  ∧ ScreenShare.onDataReceived None (Some "user-b") Sample.client
    = ScreenShare.warn Sample.client
  ∧ ScreenShare.roomMessages
      (ScreenShare.onDataReceived (Some (JObject [("type", JString "room:chat")]))
         None Sample.client)
    = [JObject [("type", JString "room:chat")]].
Proof. by vm_compute. Qed.

End Checks.

(** A hypothesis [x ∈ [a; b; ...]] is split into its cases, each closed by
    [tac]. *)
Ltac elem_cases tac :=
  repeat match goal with
  | H : _ ∈ _ :: _ |- _ => apply elem_of_cons in H as [->|H]; [tac|]
  | H : _ ∈ [] |- _ => by apply elem_of_nil in H
  end.

(** ** Facts about the string primitives *)

Module JsFacts.

Import Js Env.

Lemma append_nil_l (s : string) : "" +:+ s = s.
Proof. reflexivity. Qed.

Lemma append_cons (c : ascii) (a b : string) : String c a +:+ b = String c (a +:+ b).
Proof. reflexivity. Qed.

Lemma append_nil_r (s : string) : s +:+ "" = s.
Proof. induction s as [|c s IH]; [done|]. by rewrite append_cons, IH. Qed.

Lemma append_assoc (a b c : string) : (a +:+ b) +:+ c = a +:+ (b +:+ c).
Proof. induction a as [|x a IH]; [done|]. by rewrite !append_cons, IH. Qed.

Lemma split_nl_nonempty (s : string) : split_nl s ≠ [].
Proof.
  induction s as [|c s IH]; simpl; [done|].
  destruct (is_nl c); [done|]. by destruct (split_nl s).
Qed.

Lemma split_nl_app (a b : string) :
  split_nl (a +:+ String NL b) = split_nl a ++ split_nl b.
Proof.
  induction a as [|c a IH].
  - by rewrite append_nil_l.
  - rewrite append_cons. simpl. destruct (is_nl c); [by rewrite IH|].
    rewrite IH. pose proof (split_nl_nonempty a).
    by destruct (split_nl a).
Qed.

Lemma split_nl_free (s : string) : nl_free s → split_nl s = [s].
Proof.
  unfold nl_free. induction s as [|c s IH]; simpl; [done|].
  intros [Hc Hs]%orb_false_iff. unfold is_nl. rewrite Hc.
  by rewrite (IH Hs).
Qed.

Lemma split_nl_lines_free (s : string) : Forall nl_free (split_nl s).
Proof.
  induction s as [|c s IH]; simpl.
  - by constructor.
  - destruct (is_nl c) eqn:Hc; [by constructor|].
    destruct (split_nl s) as [|h t]; [by constructor; [unfold nl_free; simpl; unfold is_nl in Hc; rewrite Hc|]|].
    inversion IH as [|?? Hh Ht]; subst. constructor; [|done].
    unfold nl_free in *. simpl. unfold is_nl in Hc. by rewrite Hc.
Qed.

Lemma split_nl_join (l : list string) :
  l ≠ [] → split_nl (join_nl l) = concat (split_nl <$> l).
Proof.
  induction l as [|x l IH]; [done|]. intros _.
  destruct l as [|y l].
  - simpl. by rewrite List.app_nil_r.
  - change (join_nl (x :: y :: l)) with (x +:+ String NL (join_nl (y :: l))).
    rewrite split_nl_app, IH by done. done.
Qed.

Lemma split_nl_join_free (l : list string) :
  l ≠ [] → Forall nl_free l → split_nl (join_nl l) = l.
Proof.
  intros Hl Hfree. rewrite split_nl_join by done. clear Hl.
  induction Hfree as [|x l Hx _ IH]; [done|].
  rewrite fmap_cons. simpl. by rewrite (split_nl_free x Hx), IH.
Qed.

Lemma split_nl_newlines (n : nat) : split_nl (newlines n) = replicate (S n) "".
Proof.
  induction n as [|n IH]; [done|].
  simpl newlines. change (split_nl (String NL (newlines n))) with ("" :: split_nl (newlines n)). by rewrite IH.
Qed.

Lemma split_nl_app_newlines (s : string) (n : nat) :
  split_nl (s +:+ newlines n) = split_nl s ++ replicate n "".
Proof.
  destruct n as [|n].
  - simpl. by rewrite append_nil_r, List.app_nil_r.
  - simpl newlines. by rewrite split_nl_app, split_nl_newlines.
Qed.

Lemma dropEndWhile_newlines (s : string) :
  ∃ n, s = dropEndWhile is_nl s +:+ newlines n.
Proof.
  induction s as [|c s [n IH]].
  - by exists 0.
  - simpl. destruct (dropEndWhile is_nl s) as [|d t] eqn:Hd.
    + destruct (is_nl c) eqn:Hc.
      * exists (S n). rewrite append_nil_l in *. simpl.
        unfold is_nl in Hc. apply bool_decide_eq_true in Hc. by rewrite Hc, <- IH.
      * exists n. rewrite append_cons. by rewrite <- IH.
    + exists n. rewrite append_cons. by rewrite <- IH.
Qed.

Lemma dropEndWhile_cons_keep (p : ascii → bool) (c : ascii) (s : string) :
  p c = false → dropEndWhile p (String c s) = String c (dropEndWhile p s).
Proof. intros Hc. simpl. rewrite Hc. by destruct (dropEndWhile p s). Qed.

Lemma dropEndWhile_app_keep (p : ascii → bool) (a : string) (c : ascii) (b : string) :
  p c = false →
  dropEndWhile p (a +:+ String c b) = a +:+ String c (dropEndWhile p b).
Proof.
  intros Hc. induction a as [|x a IH].
  - rewrite !append_nil_l. by apply dropEndWhile_cons_keep.
  - rewrite !append_cons. simpl. rewrite IH. by destruct a.
Qed.

Lemma dropEndWhile_idemp (p : ascii → bool) (s : string) :
  dropEndWhile p (dropEndWhile p s) = dropEndWhile p s.
Proof.
  induction s as [|c s IH]; [done|]. simpl.
  destruct (dropEndWhile p s) as [|d t] eqn:Hd.
  - destruct (p c) eqn:Hc; [done|]. simpl. by rewrite Hc.
  - simpl in *. rewrite IH. done.
Qed.

Lemma dropStartWhile_idemp (p : ascii → bool) (s : string) :
  dropStartWhile p (dropStartWhile p s) = dropStartWhile p s.
Proof.
  induction s as [|c s IH]; [done|]. simpl.
  destruct (p c) eqn:Hc; [done|]. simpl. by rewrite Hc.
Qed.

Lemma dropStart_dropEnd (p : ascii → bool) (s : string) :
  dropStartWhile p (dropEndWhile p s) = dropEndWhile p (dropStartWhile p s).
Proof.
  induction s as [|c s IH]; [done|].
  destruct (p c) eqn:Hc.
  - simpl. rewrite Hc, <- IH. destruct (dropEndWhile p s); [done|].
    simpl. by rewrite Hc.
  - rewrite dropEndWhile_cons_keep by done. simpl. rewrite Hc.
    by rewrite dropEndWhile_cons_keep.
Qed.

Lemma trim_idemp (s : string) : trim (trim s) = trim s.
Proof.
  unfold trim. rewrite dropStart_dropEnd, dropStartWhile_idemp.
  apply dropEndWhile_idemp.
Qed.

Lemma trim_dropEnd (s : string) : trim (dropEndWhile is_ws s) = trim s.
Proof.
  unfold trim. rewrite dropStart_dropEnd. apply dropEndWhile_idemp.
Qed.

Lemma dropStartWhile_length (p : ascii → bool) (s : string) :
  String.length (dropStartWhile p s) ≤ String.length s.
Proof.
  induction s as [|c s IH]; simpl; [lia|]. destruct (p c); simpl; lia.
Qed.

Lemma dropEndWhile_length (p : ascii → bool) (s : string) :
  String.length (dropEndWhile p s) ≤ String.length s.
Proof.
  induction s as [|c s IH]; simpl; [lia|].
  destruct (dropEndWhile p s); [destruct (p c)|]; simpl in *; lia.
Qed.

(** A trimmed string has no white space at either end. *)
Lemma trim_fixed_start (k : string) : trim k = k → dropStartWhile is_ws k = k.
Proof.
  intros Hk. destruct k as [|c r]; [done|]. simpl.
  destruct (is_ws c) eqn:Hc; [|done]. exfalso.
  assert (String.length (trim (String c r)) ≤ String.length r) as Hlen.
  { unfold trim. simpl. rewrite Hc.
    etrans; [apply dropEndWhile_length|apply dropStartWhile_length]. }
  rewrite Hk in Hlen. simpl in Hlen. lia.
Qed.

Lemma trim_fixed_end (k : string) : trim k = k → dropEndWhile is_ws k = k.
Proof.
  intros Hk. pose proof (trim_fixed_start k Hk) as Hs.
  unfold trim in Hk. by rewrite Hs in Hk.
Qed.

Lemma indexOf_app (c : ascii) (k x : string) :
  contains c k = false → indexOf c (k +:+ String c x) = Some (String.length k).
Proof.
  induction k as [|d k IH]; simpl.
  - intros _. rewrite ?append_nil_l. simpl. by rewrite bool_decide_eq_true_2.
  - intros [Hd Hk]%orb_false_iff. rewrite ?append_cons. simpl.
    rewrite Hd, (IH Hk). done.
Qed.

Lemma slice_to_app (k x : string) : slice_to (String.length k) (k +:+ x) = k.
Proof.
  induction k as [|d k IH]; simpl.
  - by destruct x.
  - rewrite ?append_cons. by rewrite IH.
Qed.

Lemma slice_from_app (k x : string) (c : ascii) :
  slice_from (S (String.length k)) (k +:+ String c x) = x.
Proof.
  induction k as [|d k IH]; [done|].
  rewrite append_cons. exact IH.
Qed.

Lemma contains_app (c : ascii) (a b : string) :
  contains c (a +:+ b) = contains c a || contains c b.
Proof.
  induction a as [|d a IH]; [done|].
  rewrite ?append_cons. simpl. rewrite IH. by rewrite orb_assoc.
Qed.

Lemma lastChar_dropEndWhile (p : ascii → bool) (s : string) (c : ascii) :
  lastChar (dropEndWhile p s) = Some c → p c = false.
Proof.
  induction s as [|d s IH]; [done|]. simpl.
  destruct (dropEndWhile p s) as [|e t] eqn:Hd.
  - destruct (p d) eqn:Hp; [done|]. simpl. by intros [= <-].
  - intros H. apply IH. exact H.
Qed.

End JsFacts.

(** ** Facts about [parseEnvValues] and [updateEnvFile] *)

Module EnvFacts.

Import Js Env JsFacts Settings.

Lemma parseLine_lineEntry (values : gmap string string) (line : string) :
  parseLine values line =
  match lineEntry line with
  | Some (k, v) => assign values k v
  | None => values
  end.
Proof.
  unfold parseLine, lineEntry.
  destruct (negb _ || _); [done|]. by destruct (indexOf _ _).
Qed.

Lemma updateLine_lineEntry (updates : Obj.t) (updated : list string)
    (written : gset string) (line : string) :
  updateLine updates (updated, written) line =
  (updated ++ [rewriteLine updates line],
   match lineEntry line with
   | Some (k, _) => if Obj.has updates k then {[k]} ∪ written else written
   | None => written
   end).
Proof.
  unfold updateLine, rewriteLine, lineEntry.
  destruct (negb _ || _); [done|]. destruct (indexOf _ _); [|done].
  by destruct (Obj.has _ _).
Qed.

Lemma keyOk_spec (k : string) :
  keyOk k = true →
  trim k = k ∧ contains "=" k = false ∧ startsWith k "#" = false ∧ k ≠ "__proto__".
Proof.
  unfold keyOk. rewrite !andb_true_iff, !negb_true_iff.
  intros [[[H1 H2] H3] H4]. apply bool_decide_eq_true in H1.
  apply bool_decide_eq_false in H4. done.
Qed.

(** A line [key=value] is read back as the key and the trimmed value. *)
Lemma lineEntry_kv (k v : string) :
  trim k = k → contains "=" k = false → startsWith k "#" = false →
  lineEntry (k +:+ "=" +:+ v) = Some (k, trim v).
Proof.
  intros Htrim Heq Hhash. unfold lineEntry.
  assert (trim (k +:+ "=" +:+ v) = k +:+ "=" +:+ dropEndWhile is_ws v) as ->.
  { unfold trim.
    assert (dropStartWhile is_ws (k +:+ "=" +:+ v) = k +:+ "=" +:+ v) as ->.
    { pose proof (trim_fixed_start k Htrim) as Hs.
      destruct k as [|c r]; [done|]. simpl in *.
      destruct (is_ws c); [|done].
      pose proof (dropStartWhile_length is_ws r) as Hlen.
      rewrite Hs in Hlen. simpl in Hlen. lia. }
    by apply dropEndWhile_app_keep. }
  assert (truthy (k +:+ "=" +:+ dropEndWhile is_ws v) = true) as ->
    by (by destruct k).
  assert (startsWith (k +:+ "=" +:+ dropEndWhile is_ws v) "#" = false) as ->.
  { destruct k as [|c r]; [done|]. simpl in *.
    by destruct (bool_decide ("#"%char = c)). }
  simpl negb. cbv [orb].
  change ("=" +:+ dropEndWhile is_ws v) with (String "=" (dropEndWhile is_ws v)).
  rewrite indexOf_app by done. rewrite slice_to_app, slice_from_app.
  by rewrite Htrim, trim_dropEnd.
Qed.

(** The properties [{}] inherits have keys that read back, and texts
    without a line feed. *)
Lemma inheritedText_ok (k t : string) :
  Obj.inheritedText k = Some t →
  trim k = k ∧ contains "=" k = false ∧ startsWith k "#" = false
  ∧ nl_free k ∧ nl_free t.
Proof.
  unfold Obj.inheritedText. unfold nl_free.
  repeat case_bool_decide; try done.
  - subst k. by intros [= <-].
  - subst k. by intros [= <-].
  - intros [= <-].
    elem_cases ltac:(by vm_compute).
Qed.

Lemma lineEntry_assignment (k v : string) :
  keyOk k = true → lineEntry (k +:+ "=" +:+ v) = Some (k, trim v).
Proof. intros (? & ? & ? & _)%keyOk_spec. by apply lineEntry_kv. Qed.

Lemma own_elem (updates : Obj.t) (k v : string) :
  (k, v) ∈ updates → is_Some (Obj.own updates k).
Proof.
  unfold Obj.own. induction updates as [|[k' v'] r IH]; [by intros ?%elem_of_nil|].
  intros [[= <- <-]|Hin]%elem_of_cons; simpl.
  - rewrite bool_decide_eq_true_2 by done. by eexists.
  - case_bool_decide; [by eexists|]. by apply IH.
Qed.

Lemma own_Some_elem (updates : Obj.t) (k v : string) :
  Obj.own updates k = Some v → (k, v) ∈ updates.
Proof.
  unfold Obj.own. induction updates as [|[k' v'] r IH]; [done|]. simpl.
  case_bool_decide as Hk; simpl in *.
  - intros [= <-]. subst. apply elem_of_cons. by left.
  - intros H. apply elem_of_cons. right. by apply IH.
Qed.

Lemma own_NoDup (updates : Obj.t) (k v : string) :
  NoDup (fst <$> updates) → (k, v) ∈ updates → Obj.own updates k = Some v.
Proof.
  unfold Obj.own. induction updates as [|[k' v'] r IH]; [by intros _ ?%elem_of_nil|].
  rewrite fmap_cons. intros [Hnotin Hnd]%NoDup_cons.
  intros [[= <- <-]|Hin]%elem_of_cons; simpl.
  - by rewrite bool_decide_eq_true_2.
  - case_bool_decide as Hk; simpl in *; [|by apply IH].
    subst k'. exfalso. apply Hnotin. apply list_elem_of_fmap. by exists (k, v).
Qed.

Lemma has_own (updates : Obj.t) (k : string) :
  is_Some (Obj.own updates k) → Obj.has updates k = true.
Proof. intros H. unfold Obj.has. by rewrite bool_decide_eq_true_2. Qed.

Lemma has_false (updates : Obj.t) (k : string) :
  Obj.has updates k = false → Obj.own updates k = None ∧ Obj.inheritedText k = None.
Proof.
  unfold Obj.has. intros [H1 H2]%orb_false_iff.
  apply bool_decide_eq_false in H1, H2.
  split; apply eq_None_not_Some; done.
Qed.

Lemma filter_ext_elem {A : Type} (P Q : A → Prop) `{!∀ x, Decision (P x)}
    `{!∀ x, Decision (Q x)} (l : list A) :
  (∀ x, x ∈ l → P x ↔ Q x) → filter P l = filter Q l.
Proof.
  induction l as [|x l IH]; [done|]. intros Hext.
  rewrite !filter_cons.
  assert (P x ↔ Q x) as Hx by (apply Hext, elem_of_cons; by left).
  rewrite IH by (intros y Hy; apply Hext, elem_of_cons; by right).
  repeat case_decide; tauto.
Qed.

Lemma updateLine_fold (updates : Obj.t) (lines updated : list string) (written : gset string) :
  ∃ written',
    fold_left (updateLine updates) lines (updated, written)
    = (updated ++ (rewriteLine updates <$> lines), written')
    ∧ ∀ k, k ∈ written' ↔
           k ∈ written ∨ (k ∈ fileKeys lines ∧ Obj.has updates k = true).
Proof.
  revert updated written. induction lines as [|line lines IH]; intros updated written.
  - exists written. simpl. rewrite List.app_nil_r. split; [done|].
    intros k. unfold fileKeys. simpl. rewrite elem_of_nil. tauto.
  - cbn [fold_left]. rewrite updateLine_lineEntry.
    destruct (IH (updated ++ [rewriteLine updates line])
                 (match lineEntry line with
                  | Some (k, _) => if Obj.has updates k then {[k]} ∪ written else written
                  | None => written
                  end)) as (w' & Hfold & Hw').
    exists w'. split.
    + rewrite Hfold, fmap_cons. by rewrite <- List.app_assoc.
    + intros k. rewrite Hw'. unfold fileKeys. simpl.
      destruct (lineEntry line) as [[k0 v0]|]; [|tauto].
      rewrite fmap_cons, elem_of_cons. simpl.
      destruct (Obj.has updates k0) eqn:Hhas.
      * rewrite elem_of_union, elem_of_singleton.
        split; [intros [[->|?]|[? ?]]|intros [?|[[->|?] ?]]]; tauto.
      * split; [tauto|]. intros [?|[[->|?] ?]]; [tauto|congruence|tauto].
Qed.

Lemma appendNew_fold (written : gset string) (updates : Obj.t) (updated : list string) :
  fold_left (appendNew written) updates updated
  = updated ++ (entryLine <$> filter (λ kv, kv.1 ∉ written) updates).
Proof.
  revert updated. induction updates as [|[k v] r IH]; intros updated; cbn [fold_left appendNew].
  - simpl. by rewrite List.app_nil_r.
  - rewrite IH, filter_cons. cbn [fst].
    case_bool_decide; case_decide; try done.
    rewrite fmap_cons. by rewrite <- List.app_assoc.
Qed.

(** The array [updated]: the lines of the file, each kept or rewritten in
    its place, followed by one line for every key the file did not have. *)
Lemma updatedLines_eq (content : string) (updates : Obj.t) :
  updatedLines content updates
  = (rewriteLine updates <$> split_nl content) ++ newLines (split_nl content) updates.
Proof.
  unfold updatedLines, newLines.
  destruct (updateLine_fold updates (split_nl content) [] ∅) as (w & -> & Hw).
  rewrite appendNew_fold. simpl. f_equal. f_equal.
  apply filter_ext_elem. intros [k v] Hin. simpl.
  rewrite Hw, elem_of_empty.
  pose proof (has_own updates k (own_elem _ _ _ Hin)). tauto.
Qed.

(** *** Reading a file back *)

Lemma assign_lookup (values : gmap string string) (k' v k : string) :
  k ≠ "__proto__" →
  assign values k' v !! k = if bool_decide (k' = k) then Some v else values !! k.
Proof.
  intros Hk. unfold assign. case_bool_decide as Hp.
  - subst k'. by rewrite bool_decide_eq_false_2.
  - case_bool_decide as Hkk; [subst; apply lookup_insert_eq|by apply lookup_insert_ne].
Qed.

Lemma parse_fold_lookup (lines : list string) (values : gmap string string) (k : string) :
  k ≠ "__proto__" →
  fold_left parseLine lines values !! k
  = match lastVal k (omap lineEntry lines) with
    | Some v => Some v
    | None => values !! k
    end.
Proof.
  intros Hk. revert values. induction lines as [|line lines IH]; intros values; [done|].
  cbn [fold_left omap list_omap]. rewrite IH, parseLine_lineEntry.
  destruct (lineEntry line) as [[k' v]|]; [|done].
  cbn [lastVal]. destruct (lastVal k (omap lineEntry lines)); [done|].
  rewrite assign_lookup by done. by case_bool_decide.
Qed.

Lemma parseEnvValues_lookup (content k : string) :
  k ≠ "__proto__" →
  parseEnvValues content !! k = lastVal k (omap lineEntry (split_nl content)).
Proof.
  intros Hk. unfold parseEnvValues. rewrite parse_fold_lookup by done.
  by destruct (lastVal _ _).
Qed.

Lemma omap_lineEntry_blank (lines : list string) (n : nat) :
  omap lineEntry (lines ++ replicate n "") = omap lineEntry lines.
Proof.
  rewrite omap_app. induction n as [|n IH]; simpl; [by rewrite List.app_nil_r|].
  exact IH.
Qed.

(** The lines of the text that is written: those of the joined lines, up to
    blank lines at the end. *)
Lemma split_nl_replaceTrailingNewlines (s : string) :
  ∃ n, split_nl s = split_nl (dropEndWhile is_nl s) ++ replicate n ""
       ∧ split_nl (replaceTrailingNewlines s) = split_nl (dropEndWhile is_nl s) ++ [""].
Proof.
  destruct (dropEndWhile_newlines s) as [n Hn]. exists n. split.
  - rewrite Hn at 1. apply split_nl_app_newlines.
  - unfold replaceTrailingNewlines. by rewrite split_nl_app.
Qed.

Lemma omap_lineEntry_replaceTrailingNewlines (s : string) :
  omap lineEntry (split_nl (replaceTrailingNewlines s)) = omap lineEntry (split_nl s).
Proof.
  destruct (split_nl_replaceTrailingNewlines s) as (n & -> & ->).
  by rewrite (omap_lineEntry_blank _ 1), omap_lineEntry_blank.
Qed.

(** *** The entries of the rewritten lines *)

Lemma lastVal_app (k : string) (a b : list (string * string)) :
  lastVal k (a ++ b)
  = match lastVal k b with
    | Some x => Some x
    | None => lastVal k a
    end.
Proof.
  induction a as [|[k' v] a IH]; simpl.
  - by destruct (lastVal k b).
  - rewrite IH. by destruct (lastVal k b).
Qed.

Lemma lastVal_None (k : string) (entries : list (string * string)) :
  k ∉ entries.*1 → lastVal k entries = None.
Proof.
  induction entries as [|[k' v] r IH]; [done|].
  rewrite fmap_cons, not_elem_of_cons. simpl. intros [Hne Hr].
  rewrite IH by done. by rewrite bool_decide_eq_false_2.
Qed.

Lemma lastVal_is_Some (k : string) (entries : list (string * string)) :
  k ∈ entries.*1 → is_Some (lastVal k entries).
Proof.
  induction entries as [|[k' v] r IH]; [by intros ?%elem_of_nil|].
  rewrite fmap_cons, elem_of_cons. simpl. intros [->|Hr].
  - destruct (lastVal k' r); [by eexists|]. rewrite bool_decide_eq_true_2 by done. by eexists.
  - destruct (IH Hr) as [x ->]. by eexists.
Qed.

Lemma lastVal_const (k v : string) (entries : list (string * string)) :
  (∀ v', (k, v') ∈ entries → v' = v) → k ∈ entries.*1 → lastVal k entries = Some v.
Proof.
  intros Hall Hin. destruct (lastVal_is_Some k entries Hin) as [x Hx].
  rewrite Hx. f_equal. apply Hall. clear Hall Hin.
  induction entries as [|[k' v'] r IH]; [done|]. simpl in Hx.
  destruct (lastVal k r) as [y|] eqn:Hy.
  - apply elem_of_cons. right. apply IH. congruence.
  - case_bool_decide; [|done]. apply elem_of_cons. left. congruence.
Qed.

Lemma wellFormed_spec (updates : Obj.t) :
  wellFormed updates = true →
  NoDup updates.*1
  ∧ ∀ k v, (k, v) ∈ updates → keyOk k = true ∧ nl_free k ∧ nl_free v.
Proof.
  unfold wellFormed. intros [Hnd Hall]%andb_true_iff.
  apply bool_decide_eq_true in Hnd. split; [done|].
  intros k v Hin. rewrite forallb_forall in Hall.
  apply list_elem_of_In, Hall in Hin. simpl in Hin.
  apply andb_true_iff in Hin as [[H1 H2]%andb_true_iff H3].
  apply negb_true_iff in H2, H3. done.
Qed.

Lemma omap_lineEntry_entryLine (updates : Obj.t) :
  (∀ k v, (k, v) ∈ updates → keyOk k = true) →
  omap lineEntry (entryLine <$> updates) = (λ kv, (kv.1, trim kv.2)) <$> updates.
Proof.
  induction updates as [|[k v] r IH]; [done|]. intros Hok.
  rewrite !fmap_cons. cbn [omap list_omap]. unfold entryLine at 1. simpl.
  rewrite lineEntry_assignment by (apply (Hok k v), elem_of_cons; by left).
  rewrite IH; [done|]. intros k' v' Hin. apply (Hok k' v'), elem_of_cons. by right.
Qed.

Lemma updatedLines_nonempty (content : string) (updates : Obj.t) :
  updatedLines content updates ≠ [].
Proof.
  rewrite updatedLines_eq. pose proof (split_nl_nonempty content).
  by destruct (split_nl content).
Qed.

Lemma rewriteEntry_fst (updates : Obj.t) (entries : list (string * string)) :
  (rewriteEntry updates <$> entries).*1 = entries.*1.
Proof.
  rewrite <- list_fmap_compose. apply list_fmap_ext. intros _ [k v] _.
  unfold rewriteEntry. simpl. by destruct (Obj.has updates k).
Qed.

Lemma lastVal_rewrite_other (updates : Obj.t) (entries : list (string * string)) (k : string) :
  Obj.has updates k = false →
  lastVal k (rewriteEntry updates <$> entries) = lastVal k entries.
Proof.
  intros Hhas. induction entries as [|[k' v] r IH]; [done|].
  rewrite fmap_cons. unfold rewriteEntry at 1. simpl.
  destruct (Obj.has updates k') eqn:Hhas'; simpl; rewrite IH; [|done].
  destruct (lastVal k r); [done|].
  rewrite bool_decide_eq_false_2; [done|]. congruence.
Qed.

(** *** Well-formed updates are read back *)

Section WellFormedUpdates.

Context (updates : Obj.t) (Hwf : wellFormed updates = true).

(** Every key that [updates] has, own or inherited, reads back, and its
    text has no line feed. *)
Lemma has_ok (k : string) :
  Obj.has updates k = true →
  trim k = k ∧ contains "=" k = false ∧ startsWith k "#" = false
  ∧ nl_free k ∧ nl_free (Obj.text updates k).
Proof.
  destruct (wellFormed_spec updates Hwf) as [_ Hok].
  intros Hhas. unfold Obj.text.
  destruct (Obj.own updates k) as [v|] eqn:Hown.
  - apply own_Some_elem, Hok in Hown as ((H1 & H2 & H3 & _)%keyOk_spec & H4 & H5). done.
  - unfold Obj.has in Hhas. rewrite Hown in Hhas.
    rewrite bool_decide_eq_false_2 in Hhas by (by intros [? ?]).
    apply bool_decide_eq_true in Hhas as [t Ht]. rewrite Ht. simpl.
    by apply inheritedText_ok.
Qed.

Lemma lineEntry_rewriteLine (line : string) :
  lineEntry (rewriteLine updates line) = rewriteEntry updates <$> lineEntry line.
Proof.
  unfold rewriteLine.
  destruct (lineEntry line) as [[k v]|] eqn:Hline; [|by rewrite Hline].
  unfold rewriteEntry. simpl. destruct (Obj.has updates k) eqn:Hhas; [|by rewrite Hline].
  destruct (has_ok k Hhas) as (H1 & H2 & H3 & _).
  by rewrite lineEntry_kv.
Qed.

Lemma omap_lineEntry_rewrite (lines : list string) :
  omap lineEntry (rewriteLine updates <$> lines)
  = rewriteEntry updates <$> omap lineEntry lines.
Proof.
  induction lines as [|line lines IH]; [done|].
  rewrite fmap_cons. cbn [omap list_omap].
  rewrite lineEntry_rewriteLine, IH.
  by destruct (lineEntry line).
Qed.

Lemma updatedLines_nl_free (content : string) :
  Forall nl_free (updatedLines content updates).
Proof.
  rewrite updatedLines_eq. apply Forall_app. split.
  - apply Forall_fmap. eapply Forall_impl; [apply split_nl_lines_free|].
    intros line Hfree. simpl. unfold rewriteLine.
    destruct (lineEntry line) as [[k v]|]; [|done].
    destruct (Obj.has updates k) eqn:Hhas; [|done].
    destruct (has_ok k Hhas) as (_ & _ & _ & Hk & Ht).
    unfold nl_free in *. rewrite !contains_app, Hk, Ht. done.
  - unfold newLines. apply Forall_fmap, Forall_forall. intros [k v] [_ Hin]%list_elem_of_filter.
    destruct (wellFormed_spec updates Hwf) as [_ Hok].
    destruct (Hok k v Hin) as (_ & Hk & Hv).
    unfold nl_free, entryLine in *. simpl. rewrite !contains_app, Hk, Hv. done.
Qed.

(** What is read back from the text that [updateEnvFile] writes. *)
Lemma parse_updated (content k : string) :
  k ≠ "__proto__" →
  parseEnvValues (updateEnvContent content updates) !! k
  = lastVal k
      ((rewriteEntry updates <$> omap lineEntry (split_nl content))
       ++ ((λ kv, (kv.1, trim kv.2))
             <$> filter (λ kv, kv.1 ∉ fileKeys (split_nl content)) updates)).
Proof.
  intros Hk. rewrite parseEnvValues_lookup by done. unfold updateEnvContent.
  rewrite omap_lineEntry_replaceTrailingNewlines.
  rewrite split_nl_join_free
    by (by apply updatedLines_nonempty || by apply updatedLines_nl_free).
  rewrite updatedLines_eq, omap_app, omap_lineEntry_rewrite.
  unfold newLines. rewrite omap_lineEntry_entryLine; [done|].
  intros k' v' [_ Hin]%list_elem_of_filter.
  destruct (wellFormed_spec updates Hwf) as [_ Hok]. by destruct (Hok k' v' Hin).
Qed.

(** An updated key is read back as its new value, trimmed. *)
Lemma parse_updated_own (content k v : string) :
  Obj.own updates k = Some v →
  parseEnvValues (updateEnvContent content updates) !! k = Some (trim v).
Proof.
  intros Hown. destruct (wellFormed_spec updates Hwf) as [Hnd Hok].
  pose proof (own_Some_elem _ _ _ Hown) as Hin.
  destruct (Hok k v Hin) as ((_ & _ & _ & Hproto)%keyOk_spec & _ & _).
  rewrite parse_updated, lastVal_app by done.
  destruct (decide (k ∈ fileKeys (split_nl content))) as [Hfile|Hfile].
  - rewrite lastVal_None.
    + apply lastVal_const; [|by rewrite rewriteEntry_fst].
      intros v' ([k0 v0] & Heq & _)%list_elem_of_fmap. unfold rewriteEntry in Heq.
      simpl in Heq. destruct (Obj.has updates k0) eqn:Hhas0.
      * injection Heq as -> ->. unfold Obj.text. by rewrite Hown.
      * injection Heq as -> ->. rewrite has_own in Hhas0; [done|by eexists].
    + rewrite <- list_fmap_compose.
      intros ([k0 v0] & Heq & [Hnot _]%list_elem_of_filter)%list_elem_of_fmap.
      simpl in *. by subst.
  - rewrite (lastVal_const k (trim v)); [done| |].
    + intros v' ([k0 v0] & [= <- ->] & [_ Hin0]%list_elem_of_filter)%list_elem_of_fmap.
      pose proof (own_NoDup _ _ _ Hnd Hin0) as Hown0. congruence.
    + rewrite <- list_fmap_compose. apply list_elem_of_fmap.
      exists (k, v). split; [done|]. by apply list_elem_of_filter.
Qed.

(** A key that [updates] does not have keeps the value it had. *)
Lemma parse_updated_other (content k : string) :
  Obj.has updates k = false →
  parseEnvValues (updateEnvContent content updates) !! k = parseEnvValues content !! k.
Proof.
  intros Hhas.
  assert (k ≠ "__proto__") as Hproto.
  { intros ->. apply has_false in Hhas as [_ Hinh]. done. }
  rewrite parse_updated, parseEnvValues_lookup, lastVal_app by done.
  rewrite lastVal_None; [by apply lastVal_rewrite_other|].
  rewrite <- list_fmap_compose.
  intros ([k0 v0] & Heq & [_ Hin]%list_elem_of_filter)%list_elem_of_fmap.
  simpl in Heq. subst k0. rewrite has_own in Hhas; [done|by eapply own_elem].
Qed.

End WellFormedUpdates.

(** *** The lines that are written *)

Lemma updatedLines_lookup (content : string) (updates : Obj.t) (i : nat) (line : string) :
  split_nl content !! i = Some line →
  updatedLines content updates !! i = Some (rewriteLine updates line).
Proof.
  intros Hi. rewrite updatedLines_eq, lookup_app_l.
  - by rewrite list_lookup_fmap, Hi.
  - rewrite length_fmap. by eapply lookup_lt_Some.
Qed.

Lemma rewriteLine_own (updates : Obj.t) (line k v0 v : string) :
  lineEntry line = Some (k, v0) → Obj.own updates k = Some v →
  rewriteLine updates line = k +:+ "=" +:+ v.
Proof.
  intros Hline Hown. unfold rewriteLine, Obj.text. rewrite Hline, Hown.
  rewrite has_own; [done|by eexists].
Qed.

(** Every update has its line among the lines written. *)
Lemma entryLine_updated (content : string) (updates : Obj.t) (k v : string) :
  Obj.own updates k = Some v → (k +:+ "=" +:+ v) ∈ updatedLines content updates.
Proof.
  intros Hown. rewrite updatedLines_eq. apply elem_of_app.
  destruct (decide (k ∈ fileKeys (split_nl content))) as [Hfile|Hfile].
  - left. unfold fileKeys in Hfile.
    apply list_elem_of_fmap in Hfile as ([k' v0] & -> & Hin).
    apply list_elem_of_omap in Hin as (line & Hline & Hentry).
    apply list_elem_of_fmap. exists line. split; [|done].
    symmetry. by eapply rewriteLine_own.
  - right. unfold newLines. apply list_elem_of_fmap. exists (k, v). split; [done|].
    apply list_elem_of_filter. split; [done|]. by apply own_Some_elem.
Qed.

Lemma elem_of_split_nl_join (l : list string) (x : string) :
  x ∈ l → nl_free x → x ∈ split_nl (join_nl l).
Proof.
  intros Hin Hfree. rewrite split_nl_join by (by intros ->; apply elem_of_nil in Hin).
  apply list_elem_of_In, in_concat. exists [x]. split; [|by left].
  apply list_elem_of_In, list_elem_of_fmap. exists x. split; [|done].
  by rewrite split_nl_free.
Qed.

Lemma elem_of_split_nl_replaceTrailingNewlines (s x : string) :
  x ∈ split_nl s → x ≠ "" → x ∈ split_nl (replaceTrailingNewlines s).
Proof.
  destruct (split_nl_replaceTrailingNewlines s) as (n & -> & ->).
  intros [Hin|Hin]%elem_of_app Hx; apply elem_of_app; [by left|].
  apply elem_of_replicate in Hin as [-> _]. done.
Qed.

(** The line of an update is a line of the text written, when it holds no
    line feed. *)
Lemma entryLine_written (content : string) (updates : Obj.t) (k v : string) :
  Obj.own updates k = Some v → nl_free (k +:+ "=" +:+ v) →
  (k +:+ "=" +:+ v) ∈ split_nl (updateEnvContent content updates).
Proof.
  intros Hown Hfree. unfold updateEnvContent.
  apply elem_of_split_nl_replaceTrailingNewlines.
  - apply elem_of_split_nl_join; [by apply entryLine_updated|done].
  - by destruct k.
Qed.

End EnvFacts.

(** ** Facts about the POST handler *)

Module PostFacts.

Import Js Env JsFacts EnvFacts Settings.

Lemma postStep_fold (entries : list (string * jsvalue)) (filtered : Obj.t)
    (env : gmap string string) (restartNeeded : bool) :
  fold_left postStep entries (filtered, env, restartNeeded)
  = (fold_left (λ o kv, Obj.set o kv.1 kv.2) (applied entries) filtered,
     fold_left (λ m kv, <[kv.1:=kv.2]> m) (applied entries) env,
     restartNeeded || existsb (λ kv, restartFlag kv.1) (applied entries)).
Proof.
  revert filtered env restartNeeded.
  induction entries as [|[k val] entries IH]; intros filtered env restartNeeded.
  - simpl. by rewrite orb_false_r.
  - cbn [fold_left]. unfold postStep at 2. unfold applied. cbn [omap list_omap fst snd].
    case_bool_decide as Hk; cbn [negb]; [|apply IH].
    destruct val; try apply IH.
    rewrite IH. cbn [fold_left existsb fst snd]. f_equal.
    destruct (restartFlag k), restartNeeded; done.
Qed.

Lemma set_fresh (o : Obj.t) (k v : string) : k ∉ o.*1 → Obj.set o k v = o ++ [(k, v)].
Proof.
  induction o as [|[k' v'] o IH]; [done|].
  rewrite fmap_cons, not_elem_of_cons. simpl. intros [Hne Ho].
  rewrite bool_decide_eq_false_2 by done. by rewrite IH.
Qed.

Lemma set_fold_NoDup (l o : Obj.t) :
  NoDup (o.*1 ++ l.*1) → fold_left (λ o kv, Obj.set o kv.1 kv.2) l o = o ++ l.
Proof.
  revert o. induction l as [|[k v] l IH]; intros o Hnd.
  - simpl. by rewrite List.app_nil_r.
  - cbn [fold_left fst snd]. rewrite fmap_cons in Hnd.
    rewrite set_fresh.
    + rewrite IH; [by rewrite <- List.app_assoc|].
      rewrite fmap_app. simpl. by rewrite <- List.app_assoc.
    + apply NoDup_app in Hnd as (_ & Hdisj & _). intros Hin.
      apply (Hdisj k Hin). apply elem_of_cons. by left.
Qed.

Lemma set_keys (o : Obj.t) (k v : string) (x : string) :
  x ∈ (Obj.set o k v).*1 ↔ x = k ∨ x ∈ o.*1.
Proof.
  induction o as [|[k' v'] o IH]; simpl.
  - rewrite elem_of_cons, elem_of_nil. tauto.
  - case_bool_decide as Hk; rewrite !fmap_cons, !elem_of_cons; simpl.
    + subst. tauto.
    + rewrite IH. tauto.
Qed.

Lemma insert_fold_lookup_other (l : Obj.t) (m : gmap string string) (k : string) :
  k ∉ l.*1 → fold_left (λ m kv, <[kv.1:=kv.2]> m) l m !! k = m !! k.
Proof.
  revert m. induction l as [|[k' v'] l IH]; intros m; [done|].
  rewrite fmap_cons, not_elem_of_cons. intros [Hne Hl]. cbn [fold_left fst snd].
  rewrite IH by done. by apply lookup_insert_ne.
Qed.

Lemma insert_fold_lookup (l : Obj.t) (m : gmap string string) (k v : string) :
  NoDup l.*1 → (k, v) ∈ l → fold_left (λ m kv, <[kv.1:=kv.2]> m) l m !! k = Some v.
Proof.
  revert m. induction l as [|[k' v'] l IH]; intros m; [by intros _ ?%elem_of_nil|].
  rewrite fmap_cons. intros [Hnotin Hnd]%NoDup_cons [[= <- <-]|Hin]%elem_of_cons;
    cbn [fold_left fst snd].
  - rewrite insert_fold_lookup_other by done. apply lookup_insert_eq.
  - by apply IH.
Qed.

Lemma applied_elem (entries : list (string * jsvalue)) (k v : string) :
  (k, v) ∈ applied entries ↔ ((k, JString v) ∈ entries ∧ k ∈ ALLOWED_KEYS).
Proof.
  unfold applied. rewrite list_elem_of_omap. split.
  - intros ([k' val] & Hin & Heq). simpl in Heq. case_bool_decide; [|done].
    destruct val; try done. by injection Heq as -> ->.
  - intros [Hin Hk]. exists (k, JString v). split; [done|]. simpl.
    by rewrite bool_decide_eq_true_2.
Qed.

Lemma applied_keys (entries : list (string * jsvalue)) :
  (applied entries).*1 `sublist_of` entries.*1.
Proof.
  induction entries as [|[k val] entries IH]; [done|].
  unfold applied. cbn [omap list_omap fst snd]. fold (applied entries).
  rewrite fmap_cons. simpl.
  case_bool_decide; [|by apply sublist_cons].
  destruct val; try by apply sublist_cons.
  rewrite fmap_cons. by apply sublist_skip.
Qed.

Lemma applied_NoDup (entries : list (string * jsvalue)) :
  NoDup entries.*1 → NoDup (applied entries).*1.
Proof. intros Hnd. eapply sublist_NoDup; [done|apply applied_keys]. Qed.

Lemma applied_allowed (entries : list (string * jsvalue)) :
  applied (filter (λ kv, kv.1 ∈ ALLOWED_KEYS) entries) = applied entries.
Proof.
  induction entries as [|[k val] entries IH]; [done|].
  rewrite filter_cons. unfold applied in *. simpl. case_decide as Hk.
  - cbn [omap list_omap]. by rewrite IH.
  - rewrite IH. cbn [omap list_omap fst]. by rewrite bool_decide_eq_false_2.
Qed.

(** The allow-listed keys read back from a line [key=value]. *)
Lemma allowed_keyOk (k : string) :
  k ∈ ALLOWED_KEYS → keyOk k = true ∧ contains NL k = false.
Proof.
  unfold ALLOWED_KEYS. rewrite elem_of_list_to_set. simpl.
  intros Hin.
  elem_cases ltac:(by vm_compute).
Qed.

(** The handler on an object (or array) body, in terms of the applied
    updates. *)
Lemma post_object (body : jsvalue) (st : Server) :
  js_truthy body = true → typeof_object body = true →
  post body st
  = let a := applied (objectEntries body) in
    let filtered := fold_left (λ o kv, Obj.set o kv.1 kv.2) a [] in
    let st1 := {| envFile := envFile st;
                  processEnv := fold_left (λ m kv, <[kv.1:=kv.2]> m) a (processEnv st) |} in
    (Ok (existsb (λ kv, restartFlag kv.1) a),
     if 0 <? length filtered then updateEnvFile filtered st1 else st1).
Proof.
  intros Ht Ho. unfold post. rewrite Ht, Ho. cbn [negb orb].
  by rewrite postStep_fold.
Qed.

Lemma post_not_object (body : jsvalue) (st : Server) :
  js_truthy body && typeof_object body = false →
  post body st = (BadRequest "Expected object body", st) ∧ objectEntries body = [].
Proof.
  intros H. unfold post.
  destruct (js_truthy body) eqn:Ht, (typeof_object body) eqn:Ho; try done;
    (split; [done|]); by destruct body.
Qed.

Lemma restartFlag_spec (k : string) :
  restartFlag k = true ↔ ∃ f, f ∈ SETTINGS_SCHEMA ∧ key f = k ∧ restart f = true.
Proof.
  split.
  - unfold restartFlag. destruct (find _ _) as [f|] eqn:Hfind; [|done].
    intros Hr. exists f. apply find_some in Hfind as [Hin Hk].
    apply bool_decide_eq_true in Hk. by apply list_elem_of_In in Hin.
  - intros (f & Hin & <- & Hr). unfold SETTINGS_SCHEMA in Hin.
    elem_cases ltac:(done).
Qed.

Lemma get_keys (st : Server) (f : field) (v : string) :
  (f, v) ∈ get st → key f ∈ ALLOWED_KEYS ∧ v = fieldValue st f.
Proof.
  unfold get. intros (f' & [= <- ->] & Hin)%list_elem_of_fmap. split; [|done].
  unfold ALLOWED_KEYS. apply elem_of_list_to_set. by apply list_elem_of_fmap_2.
Qed.

End PostFacts.

(** ** The claims about the settings route *)

Module SettingsClaims.

Import Js Env JsFacts EnvFacts PostFacts Settings.

(** C6. A key of a POST body that is not in the allow-list is dropped: the
    handler does what it does on the body without the unknown keys (same
    response, same [.env] file, same [process.env]), the response is not an
    error, [process.env] is unchanged at that key, a GET afterwards has no
    field for it, and a body of unknown keys only leaves the server as it
    was. *)
Theorem post_drops_unknown_keys (body : jsvalue) (st : Server) :
  js_truthy body = true → typeof_object body = true →
  post body st
  = post (JObject (filter (λ kv, kv.1 ∈ ALLOWED_KEYS) (objectEntries body))) st
  ∧ (∃ restartNeeded, (post body st).1 = Ok restartNeeded)
  ∧ (∀ k, k ∉ ALLOWED_KEYS →
       processEnv (post body st).2 !! k = processEnv st !! k
       ∧ ∀ f v, (f, v) ∈ get (post body st).2 → key f ≠ k)
  ∧ ((∀ k val, (k, val) ∈ objectEntries body → k ∉ ALLOWED_KEYS) →
       (post body st).2 = st).
Proof.
  intros Ht Ho. rewrite (post_object body) by done.
  split; [|split; [|split]].
  - rewrite (post_object (JObject _)) by done. cbn [objectEntries].
    by rewrite applied_allowed.
  - by eexists.
  - intros k Hk. split.
    + cbv zeta. cbn [snd].
      assert (k ∉ (applied (objectEntries body)).*1) as Hnot.
      { intros ([k' v] & -> & [_ Hin]%applied_elem)%list_elem_of_fmap. done. }
      destruct (0 <? length _); cbn [updateEnvFile processEnv];
        by apply insert_fold_lookup_other.
    + intros f v [Hf _]%get_keys Heq. by rewrite Heq in Hf.
  - intros Hall. cbv zeta. cbn [snd].
    assert (applied (objectEntries body) = []) as ->.
    { destruct (applied (objectEntries body)) as [|[k v] l] eqn:Ha; [done|].
      assert ((k, v) ∈ applied (objectEntries body)) as [Hin Hk]%applied_elem
        by (rewrite Ha; apply elem_of_cons; by left).
      by destruct (Hall _ _ Hin). }
    simpl. by destruct st.
Qed.

Lemma post_drops_unknown_keys_witness :
  let st := {| envFile := Some "PORT=3000"; processEnv := {["PORT" := "3000"]} |} in
  let body := JObject [("UNKNOWN_KEY", JString "x")] in
  (post body st).1 = Ok false
  ∧ processEnv (post body st).2 !! "UNKNOWN_KEY" = None
  ∧ (post body st).2 = st.
Proof.
  intros st body.
  destruct (post_drops_unknown_keys body st eq_refl eq_refl) as (_ & _ & Henv & Hsame).
  split; [reflexivity|]. split.
  - destruct (Henv "UNKNOWN_KEY") as [-> _]; [by vm_compute|reflexivity].
  - apply Hsame. intros k val [[= -> ->]|Hin%elem_of_nil]%elem_of_cons; [|done].
    by vm_compute.
Defined.

(** C7. The response reports [restartNeeded: true] exactly when an applied
    update (allow-listed key, string value) is for a key whose schema entry
    has [restart: true]. The handler only writes the [.env] file and
    [process.env] and answers; it does not restart the server. *)
Theorem post_restartNeeded (body : jsvalue) (st : Server) :
  (post body st).1 = Ok true
  ↔ ∃ k s f, (k, JString s) ∈ objectEntries body ∧ k ∈ ALLOWED_KEYS
             ∧ f ∈ SETTINGS_SCHEMA ∧ key f = k ∧ restart f = true.
Proof.
  destruct (js_truthy body && typeof_object body) eqn:Hguard.
  - apply andb_true_iff in Hguard as [Ht Ho]. rewrite post_object by done.
    cbv zeta. cbn [fst]. split.
    + intros [= Hex]. apply existsb_exists in Hex as ([k s] & Hin & Hr).
      apply list_elem_of_In, applied_elem in Hin as [Hin Hk].
      apply restartFlag_spec in Hr as (f & ? & ? & ?). by exists k, s, f.
    + intros (k & s & f & Hin & Hk & Hf & Hkey & Hr). f_equal.
      apply existsb_exists. exists (k, s). split.
      * apply list_elem_of_In, applied_elem. done.
      * apply restartFlag_spec. by exists f.
  - destruct (post_not_object body st Hguard) as [-> Hentries]. split; [done|].
    intros (k & s & f & Hin & _). rewrite Hentries in Hin. by apply elem_of_nil in Hin.
Qed.

Lemma post_restartNeeded_witness :
  (post (JObject [("UNKNOWN_KEY", JString "x"); ("PORT", JString "8080")])
        {| envFile := None; processEnv := ∅ |}).1 = Ok true.
Proof.
  apply post_restartNeeded.
  exists "PORT", "8080", (Field "PORT" "Server Port" text true []).
  split; [|split; [|split]].
  - apply elem_of_cons. right. apply elem_of_cons. by left.
  - by vm_compute.
  - unfold SETTINGS_SCHEMA. do 5 (apply elem_of_cons; right). apply elem_of_cons. by left.
  - done.
Defined.

End SettingsClaims.

Module EnvFileClaims.

Import Js Env JsFacts EnvFacts PostFacts Settings.

(** C10, as amended. For every prior content of the [.env] file and every
    object of updates: in the array of lines that is written, a blank line,
    a comment, a line without [=] and a key-value line whose key [updates]
    does not have are kept unchanged in their place; a line whose key is an
    own property of [updates] is replaced in its place by [key=value]; the
    keys that no line has follow in the order of [Object.entries]; the text
    written is these lines joined by line feeds, with the line feeds at the
    end (so the blank lines at the end) replaced by exactly one. When the
    keys of the updates read back and no key or value holds a line feed,
    [parseEnvValues] of the result maps every updated key to its new value
    trimmed, and every key that [updates] does not have to its prior
    value. *)
Theorem updateEnvFile_frame (content : string) (updates : Obj.t) :
  (∀ i line, split_nl content !! i = Some line →
     lineEntry line = None
     ∨ (∃ k v, lineEntry line = Some (k, v) ∧ Obj.has updates k = false) →
     updatedLines content updates !! i = Some line)
  ∧ (∀ i line k v0 v, split_nl content !! i = Some line →
       lineEntry line = Some (k, v0) → Obj.own updates k = Some v →
       updatedLines content updates !! i = Some (k +:+ "=" +:+ v))
  ∧ drop (length (split_nl content)) (updatedLines content updates)
    = entryLine <$> filter (λ kv, kv.1 ∉ fileKeys (split_nl content)) updates
  ∧ (∃ body n,
       updateEnvContent content updates = body +:+ String NL ""
       ∧ lastChar body ≠ Some NL
       ∧ join_nl (updatedLines content updates) = body +:+ newlines n)
  ∧ (wellFormed updates = true →
       (∀ k v, Obj.own updates k = Some v →
          parseEnvValues (updateEnvContent content updates) !! k = Some (trim v))
       ∧ (∀ k, Obj.has updates k = false →
            parseEnvValues (updateEnvContent content updates) !! k
            = parseEnvValues content !! k)).
Proof.
  split; [|split; [|split; [|split]]].
  - intros i line Hi Hkeep. rewrite (updatedLines_lookup _ _ i line Hi).
    unfold rewriteLine. destruct Hkeep as [->|(k & v & -> & ->)]; done.
  - intros i line k v0 v Hi Hline Hown. rewrite (updatedLines_lookup _ _ i line Hi).
    f_equal. by eapply rewriteLine_own.
  - rewrite updatedLines_eq, <- (length_fmap (rewriteLine updates)).
    by rewrite drop_app_length.
  - unfold updateEnvContent, replaceTrailingNewlines.
    set (joined := join_nl _).
    destruct (dropEndWhile_newlines joined) as [n Hn].
    exists (dropEndWhile is_nl joined), n. split; [done|]. split; [|done].
    intros Hlast%lastChar_dropEndWhile. unfold is_nl in Hlast.
    by rewrite bool_decide_eq_true_2 in Hlast.
  - intros Hwf. split.
    + intros k v. by apply parse_updated_own.
    + intros k. by apply parse_updated_other.
Qed.

Lemma updateEnvFile_frame_witness :
  updatedLines Sample.envText Sample.updates !! 0 = Some "# keys"
  ∧ updatedLines Sample.envText Sample.updates !! 1 = Some "PORT= 8080"
  ∧ parseEnvValues (updateEnvContent Sample.envText Sample.updates) !! "PORT"
    = Some "8080"
  ∧ parseEnvValues (updateEnvContent Sample.envText Sample.updates) !! "A"
    = parseEnvValues Sample.envText !! "A".
Proof.
  destruct (updateEnvFile_frame Sample.envText Sample.updates)
    as (Hkept & Hreplaced & _ & _ & Hread).
  destruct (Hread eq_refl) as [Hown Hother].
  split; [|split; [|split]].
  - apply Hkept; [reflexivity|left; reflexivity].
  - apply (Hreplaced 1 "PORT=3000" "PORT" "3000" " 8080"); reflexivity.
  - apply (Hown "PORT" " 8080"). reflexivity.
  - apply Hother. reflexivity.
Defined.

(** C10 as it is stated fails: a new value is read back trimmed and not as
    it was given, a value with a line feed is read back cut and brings a
    further key into the file, the blank lines at the end of the file are
    not kept, and a line whose key is a property that every object inherits
    is rewritten although the updates do not name it. *)
Lemma updateEnvFile_claim_fails :
  ¬ (∀ k v, Obj.own [("PORT", " 8080")] k = Some v →
       parseEnvValues (updateEnvContent "PORT=3000" [("PORT", " 8080")]) !! k = Some v)
  ∧ parseEnvValues
      (updateEnvContent "PORT=3000" [("LIVEKIT_WS_URL", "x" +:+ newlines 1 +:+ "PORT=1")])
    !! "PORT" = Some "1"
  ∧ split_nl ("A=1" +:+ newlines 3) = ["A=1"; ""; ""; ""]
  ∧ split_nl (updateEnvContent ("A=1" +:+ newlines 3) [("A", "2")]) = ["A=2"; ""]
  ∧ Obj.own [("A", "2")] "constructor" = None
  ∧ updatedLines "constructor=x" [("A", "2")]
    = ["constructor=function Object() { [native code] }"; "A=2"].
Proof.
  split; [|by vm_compute].
  intros H. specialize (H "PORT" " 8080" eq_refl). vm_compute in H. done.
Defined.

End EnvFileClaims.

Module SecretClaims.

Import Js Env JsFacts EnvFacts PostFacts Settings.

Lemma slice_from_length (n : nat) (s : string) :
  String.length (slice_from n s) = String.length s - n.
Proof.
  revert s. induction n as [|n IH]; intros s; simpl; [lia|].
  destruct s as [|c s]; simpl; [done|]. apply IH.
Qed.

Lemma slice_to_from (n : nat) (s : string) : s = slice_to n s +:+ slice_from n s.
Proof.
  revert s. induction n as [|n IH]; intros s; [by destruct s|].
  destruct s as [|c s]; [done|]. simpl. rewrite append_cons. f_equal. apply IH.
Qed.

Lemma fieldValue_secret (st : Server) (f : field) (v : string) :
  type f = secret → v ≠ "" → stored st (key f) v → fieldValue st f = maskSecret v.
Proof.
  intros Htype Hv Hstored. unfold fieldValue. rewrite Htype.
  assert (truthy v = true) as Htruthy by (by destruct v).
  destruct Hstored as [->|[[->| ->] ->]]; unfold or_else; simpl;
    by rewrite ?Htruthy.
Qed.

Lemma get_elem (st : Server) (f : field) :
  f ∈ SETTINGS_SCHEMA → (f, fieldValue st f) ∈ get st.
Proof. intros Hf. unfold get. apply list_elem_of_fmap. by exists f. Qed.

(** The server after a POST of updates that are all applied, with distinct
    keys. *)
Lemma post_applied (props : list (string * jsvalue)) (st : Server) :
  NoDup props.*1 → applied props ≠ [] →
  (post (JObject props) st).2
  = {| envFile := Some (updateEnvContent (readEnvFile st) (applied props));
       processEnv := fold_left (λ m kv, <[kv.1:=kv.2]> m) (applied props) (processEnv st) |}.
Proof.
  intros Hnd Hne. rewrite post_object by done. cbv zeta. cbn [snd objectEntries].
  rewrite set_fold_NoDup by (by apply applied_NoDup). simpl.
  by destruct (applied props).
Qed.

Lemma applied_wellFormed (props : list (string * jsvalue)) :
  NoDup props.*1 →
  (∀ k s, (k, JString s) ∈ props → k ∈ ALLOWED_KEYS → nl_free s) →
  wellFormed (applied props) = true.
Proof.
  intros Hnd Hfree. unfold wellFormed. apply andb_true_iff. split.
  - apply bool_decide_eq_true. by apply applied_NoDup.
  - apply forallb_forall. intros [k s] [Hin Hk]%list_elem_of_In%applied_elem.
    cbn [fst snd]. destruct (allowed_keyOk k Hk) as [-> ->]. simpl.
    apply negb_true_iff. by apply (Hfree k s).
Qed.

(** C5, as amended. For every secret field of the schema for which the
    server stores a non-empty value, GET returns the value masked: [****]
    followed by the last four characters when the value has at least four,
    and [****] alone when it has fewer. The value shown is made of the
    mask and of the last four characters only. In particular, after a POST
    of [{ANTHROPIC_API_KEY: "sk-test-1234"}] GET returns [****1234] for that
    field. *)
Theorem get_masks_secrets (st : Server) :
  (∀ f v, f ∈ SETTINGS_SCHEMA → type f = secret → v ≠ "" → stored st (key f) v →
     (4 ≤ String.length v →
        (f, "****" +:+ slice_last 4 v) ∈ get st
        ∧ String.length (slice_last 4 v) = 4
        ∧ v = slice_to (String.length v - 4) v +:+ slice_last 4 v)
     ∧ (String.length v < 4 → (f, "****") ∈ get st))
  ∧ (Field "ANTHROPIC_API_KEY" "Anthropic API Key" secret false [], "****1234")
    ∈ get (post (JObject [("ANTHROPIC_API_KEY", JString "sk-test-1234")]) st).2.
Proof.
  split.
  - intros f v Hf Htype Hv Hstored.
    pose proof (get_elem st f Hf) as Hget.
    rewrite (fieldValue_secret st f v Htype Hv Hstored) in Hget.
    unfold maskSecret in Hget.
    assert (truthy v = true) as Htruthy by (by destruct v).
    rewrite Htruthy in Hget. cbn [negb orb] in Hget.
    split.
    + intros Hlen. apply Nat.ltb_ge in Hlen as Hltb. rewrite Hltb in Hget.
      split; [done|]. split; [|apply slice_to_from].
      unfold slice_last. rewrite slice_from_length. lia.
    + intros Hlen. apply Nat.ltb_lt in Hlen as Hltb. by rewrite Hltb in Hget.
  - set (f0 := Field "ANTHROPIC_API_KEY" _ _ _ _).
    set (st' := (post _ st).2).
    assert (fieldValue st' f0 = "****1234") as <-.
    { apply (fieldValue_secret st' f0 "sk-test-1234"); [done|done|]. left.
      unfold st'. rewrite post_applied by (done || apply NoDup_singleton).
      change (parseEnvValues
                (updateEnvContent (readEnvFile st)
                   [("ANTHROPIC_API_KEY", "sk-test-1234")])
              !! "ANTHROPIC_API_KEY" = Some (trim "sk-test-1234")).
      by apply parse_updated_own. }
    apply get_elem. apply elem_of_cons. by left.
Qed.

Lemma get_masks_secrets_witness :
  (Field "LIVEKIT_API_KEY" "LiveKit API Key" secret false [], "****cdef")
  ∈ get {| envFile := Some "LIVEKIT_API_KEY = abcdef"; processEnv := ∅ |}.
Proof.
  apply (proj1 (get_masks_secrets
                  {| envFile := Some "LIVEKIT_API_KEY = abcdef"; processEnv := ∅ |})
           (Field "LIVEKIT_API_KEY" "LiveKit API Key" secret false [])
           "abcdef").
  - unfold SETTINGS_SCHEMA. do 2 (apply elem_of_cons; right). apply elem_of_cons. by left.
  - reflexivity.
  - discriminate.
  - left. reflexivity.
  - simpl. lia.
Defined.

(** C5 as it is stated fails for a stored secret of fewer than four
    characters: its last four characters are the whole secret, and GET
    returns [****] without them. *)
Lemma get_short_secret :
  stored Sample.shortSecretServer "ANTHROPIC_API_KEY" "abc"
  ∧ slice_last 4 "abc" = "abc"
  ∧ get Sample.shortSecretServer !! 0
    = Some (Field "ANTHROPIC_API_KEY" "Anthropic API Key" secret false [], "****")
  ∧ (Field "ANTHROPIC_API_KEY" "Anthropic API Key" secret false [],
     "****" +:+ slice_last 4 "abc") ∉ get Sample.shortSecretServer.
Proof.
  split; [by left|]. split; [done|]. split; [done|].
  intros Hin. apply get_keys in Hin as [_ Hval]. by vm_compute in Hval.
Defined.

(** *** The save handler of the settings form *)

Lemma collect_keys (settings : list (field * string)) (updates : Obj.t)
    (input : SettingsPanel.Input) (k : string) :
  k ∈ (SettingsPanel.collect settings updates input).*1 →
  k ∈ updates.*1
  ∨ (SettingsPanel.dataKey input = k
     ∧ ¬ (SettingsPanel.dataType input = "secret"
          ∧ trim (SettingsPanel.value input) = "")).
Proof.
  unfold SettingsPanel.collect. cbv zeta.
  destruct (bool_decide (SettingsPanel.dataType input = "secret")
            && negb (truthy (trim (SettingsPanel.value input)))) eqn:Hsecret.
  { by left. }
  destruct ((bool_decide (SettingsPanel.dataType input = "text")
             || bool_decide (SettingsPanel.dataType input = "select"))
            && bool_decide (trim (SettingsPanel.value input)
                            = SettingsPanel.original settings (SettingsPanel.dataKey input)));
    [by left|].
  intros [->|Hin]%set_keys; [|by left]. right. split; [done|].
  intros [Htype Hval]. rewrite Htype, Hval in Hsecret. done.
Qed.

Lemma collectUpdates_keys (settings : list (field * string))
    (inputs : list SettingsPanel.Input) (updates : Obj.t) (k : string) :
  k ∈ (fold_left (SettingsPanel.collect settings) inputs updates).*1 →
  k ∈ updates.*1
  ∨ ∃ input, input ∈ inputs ∧ SettingsPanel.dataKey input = k
             ∧ ¬ (SettingsPanel.dataType input = "secret"
                  ∧ trim (SettingsPanel.value input) = "").
Proof.
  revert updates. induction inputs as [|input inputs IH]; intros updates; [by left|].
  cbn [fold_left]. intros [Hin|(input' & Hin & Hk)]%IH.
  - apply collect_keys in Hin as [Hin|[Hk Hsent]]; [by left|].
    right. exists input. split; [apply elem_of_cons; by left|done].
  - right. exists input'. split; [apply elem_of_cons; by right|done].
Qed.

(** C9. A POST body that maps an allow-listed key to the empty string is
    applied: [process.env] holds the empty string for the key, the line
    [KEY=] is a line of the [.env] file that is written, and every line of
    the prior file that gave the key a value now reads [KEY=], so the value
    stored for the key is cleared; when no applied value holds a line feed,
    GET returns the empty string for the field afterwards. The form of
    the client, on its side, sends no entry for a secret input that is
    empty. *)
Theorem post_applies_empty_string (st : Server) (props : list (string * jsvalue))
    (k : string) :
  NoDup props.*1 → (k, JString "") ∈ props → k ∈ ALLOWED_KEYS →
  processEnv (post (JObject props) st).2 !! k = Some ""
  ∧ envFile (post (JObject props) st).2
    = Some (updateEnvContent (readEnvFile st) (applied props))
  ∧ (k +:+ "=") ∈ split_nl (updateEnvContent (readEnvFile st) (applied props))
  ∧ (∀ i line v0, split_nl (readEnvFile st) !! i = Some line →
       lineEntry line = Some (k, v0) →
       updatedLines (readEnvFile st) (applied props) !! i = Some (k +:+ "="))
  ∧ ((∀ k' s, (k', JString s) ∈ props → k' ∈ ALLOWED_KEYS → nl_free s) →
       ∀ f, f ∈ SETTINGS_SCHEMA → key f = k →
            (f, "") ∈ get (post (JObject props) st).2)
  ∧ (∀ settings inputs,
       (∀ input, input ∈ inputs → SettingsPanel.dataKey input = k →
          SettingsPanel.dataType input = "secret"
          ∧ trim (SettingsPanel.value input) = "") →
       k ∉ (SettingsPanel.collectUpdates settings inputs).*1).
Proof.
  intros Hnd Hin Hk.
  assert ((k, "") ∈ applied props) as Happlied by (by apply applied_elem).
  assert (applied props ≠ []) as Hne
    by (intros Heq; rewrite Heq in Happlied; by apply elem_of_nil in Happlied).
  pose proof (applied_NoDup props Hnd) as Hnd'.
  pose proof (own_NoDup _ _ _ Hnd' Happlied) as Hown.
  destruct (allowed_keyOk k Hk) as [HkeyOk Hknl].
  rewrite post_applied by done. cbn [processEnv envFile].
  split; [|split; [|split; [|split; [|split]]]].
  - by apply insert_fold_lookup.
  - done.
  - apply (entryLine_written _ _ k ""); [done|].
    unfold nl_free. by rewrite contains_app, Hknl.
  - intros i line v0 Hi Hline. rewrite (updatedLines_lookup _ _ i line Hi).
    f_equal. by apply (rewriteLine_own _ _ k v0 "").
  - intros Hfree f Hf Hkey.
    pose proof (applied_wellFormed props Hnd Hfree) as Hwf.
    set (st' := {| envFile := _; processEnv := _ |}).
    assert (fieldValue st' f = "") as <-; [|by apply get_elem].
    assert (readEnvFile st' = updateEnvContent (readEnvFile st) (applied props))
      as Hread by done.
    unfold fieldValue. rewrite Hkey, Hread.
    rewrite (parse_updated_own _ Hwf _ k "") by done.
    assert (processEnv st' !! k = Some "") as -> by (by apply insert_fold_lookup).
    by destruct (type f).
  - intros settings inputs Hinputs Hsent.
    apply collectUpdates_keys in Hsent as [Hsent|(input & Hinput & Hkey & Hnot)].
    + by apply elem_of_nil in Hsent.
    + apply Hnot. by apply Hinputs.
Qed.

Lemma post_applies_empty_string_witness :
  processEnv (post (JObject [("ANTHROPIC_API_KEY", JString "")])
                   Sample.shortSecretServer).2 !! "ANTHROPIC_API_KEY" = Some ""
  ∧ envFile (post (JObject [("ANTHROPIC_API_KEY", JString "")])
                  Sample.shortSecretServer).2
    = Some ("ANTHROPIC_API_KEY=" +:+ newlines 1).
Proof.
  destruct (post_applies_empty_string Sample.shortSecretServer
              [("ANTHROPIC_API_KEY", JString "")] "ANTHROPIC_API_KEY")
    as (Henv & Hfile & _).
  - apply NoDup_singleton.
  - apply elem_of_cons. by left.
  - by vm_compute.
  - split; [exact Henv|]. rewrite Hfile. reflexivity.
Defined.

End SecretClaims.

(** ** The claims about the room relay *)

Module RoomClaims.

Import Js JsFacts ScreenShare.

Lemma startsWith_app (s p : string) :
  startsWith s p = true → s = p +:+ slice_from (String.length p) s.
Proof.
  revert s. induction p as [|a p IH]; intros s; [done|].
  destruct s as [|b s]; [done|]. simpl.
  intros [Hab Hrest]%andb_true_iff. apply bool_decide_eq_true in Hab as ->.
  rewrite append_cons. f_equal. by apply IH.
Qed.

(** C8, as amended. For every inbound [room:chat] message from a remote
    participant whose text is a string or a falsy value: a text that starts
    with [cognate:] is passed to [injectCognateMessage] with the marker
    stripped and the room-message log is left as it was; any other text has
    the message appended to the room-message log and nothing injected. The
    choice depends on the text only. A text that is truthy and not a string
    makes the handler log a warning, with nothing injected or appended. *)
Theorem room_chat_routing (c : Client) (msg text sender : jsvalue)
    (participant : option string) :
  getProp msg "type" = Some (JString "room:chat") →
  getProp msg "text" = Some text →
  getProp msg "sender" = Some sender →
  participant ≠ Some (localIdentity c) →
  (∀ s, text = JString s → startsWith s "cognate:" = true →
     ∃ rest, s = "cognate:" +:+ rest
       ∧ cognateMessages (onDataReceived (Some msg) participant c)
         = cognateMessages c ++ [(rest, senderOf sender participant)]
       ∧ roomMessages (onDataReceived (Some msg) participant c) = roomMessages c)
  ∧ (∀ s, text = JString s → startsWith s "cognate:" = false →
       roomMessages (onDataReceived (Some msg) participant c) = roomMessages c ++ [msg]
       ∧ cognateMessages (onDataReceived (Some msg) participant c) = cognateMessages c)
  ∧ (js_truthy text = false →
       roomMessages (onDataReceived (Some msg) participant c) = roomMessages c ++ [msg]
       ∧ cognateMessages (onDataReceived (Some msg) participant c) = cognateMessages c)
  ∧ ((∀ s, text ≠ JString s) → js_truthy text = true →
       onDataReceived (Some msg) participant c = warn c).
Proof.
  intros Htype Htext Hsender Hremote.
  unfold onDataReceived. rewrite Htype, Htext, Hsender.
  cbn [strictEqString]. rewrite bool_decide_eq_true_2 by done.
  rewrite (bool_decide_eq_true_2 _ Hremote).
  split; [|split; [|split]].
  - intros s -> Hstarts. rewrite Hstarts.
    assert (js_truthy (JString s) = true) as -> by (by destruct s).
    exists (slice_from (String.length "cognate:") s). split; [|done].
    by apply startsWith_app.
  - intros s -> Hstarts. rewrite Hstarts. by destruct (js_truthy (JString s)).
  - by intros ->.
  - intros Hnot ->. destruct text; try done. by destruct (Hnot s).
Qed.

Lemma room_chat_routing_witness :
  cognateMessages (onDataReceived (Some Sample.cognateMessage) (Some "user-b") Sample.client)
  = [("hello", JString "bob")]
  ∧ roomMessages (onDataReceived (Some Sample.cognateMessage) (Some "user-b") Sample.client)
    = [].
Proof.
  destruct (room_chat_routing Sample.client Sample.cognateMessage
              (JString "cognate:hello") (JString "bob") (Some "user-b"))
    as (Hinject & _); [reflexivity|reflexivity|reflexivity|discriminate|].
  destruct (Hinject "cognate:hello" eq_refl eq_refl) as (rest & Hrest & Hcognate & Hroom).
  vm_compute in Hrest. injection Hrest as <-. split; [exact Hcognate|exact Hroom].
Defined.

(** C8 as it is stated fails for a [room:chat] message whose text is the
    number 42: the text does not start with the marker, and the message is
    not appended to the room-message log. *)
Lemma room_chat_number_text :
  getProp Sample.numberMessage "type" = Some (JString "room:chat")
  ∧ getProp Sample.numberMessage "text" = Some (JNumber 42)
  ∧ roomMessages (onDataReceived (Some Sample.numberMessage) (Some "user-b") Sample.client)
    = []
  ∧ cognateMessages (onDataReceived (Some Sample.numberMessage) (Some "user-b") Sample.client)
    = []
  ∧ warnings (onDataReceived (Some Sample.numberMessage) (Some "user-b") Sample.client) = 1.
Proof. by vm_compute. Defined.

End RoomClaims.

(** ** The claims about the client cache *)

Module TaskQueueClaims.

Import TaskQueue.

Lemma find_none_ids (i : nat) (tasks : list Task) :
  find (λ t, bool_decide (id t = i)) tasks = None ↔ ∀ t, t ∈ tasks → id t ≠ i.
Proof.
  induction tasks as [|x tasks IH]; simpl.
  - split; [by intros _ t ?%elem_of_nil|done].
  - case_bool_decide as Hx.
    + split; [done|]. intros H. destruct (H x); [apply elem_of_cons; by left|done].
    + rewrite IH. split.
      * intros H t [->|Hin]%elem_of_cons; [done|by apply H].
      * intros H t Hin. apply H, elem_of_cons. by right.
Qed.

Lemma updateInArray_absent (i : nat) (t : Task) (tasks : list Task) :
  (∀ x, x ∈ tasks → id x ≠ i) → updateInArray tasks i t = tasks.
Proof.
  intros Habsent. unfold updateInArray.
  induction tasks as [|x tasks IH]; [done|].
  rewrite fmap_cons, IH by (intros y Hy; apply Habsent, elem_of_cons; by right).
  rewrite bool_decide_eq_false_2; [done|]. apply Habsent, elem_of_cons. by left.
Qed.

Lemma updateInArray_idemp (t : Task) (tasks : list Task) :
  updateInArray (updateInArray tasks (id t) t) (id t) t = updateInArray tasks (id t) t.
Proof.
  unfold updateInArray. rewrite <- list_fmap_compose. apply list_fmap_ext.
  intros _ x _. simpl. destruct (bool_decide (id x = id t)) eqn:Hx.
  - by rewrite bool_decide_eq_true_2.
  - by rewrite Hx.
Qed.

Lemma find_updateInArray (t : Task) (tasks : list Task) :
  is_Some (find (λ x, bool_decide (id x = id t)) tasks) →
  is_Some (find (λ x, bool_decide (id x = id t)) (updateInArray tasks (id t) t)).
Proof.
  unfold updateInArray. induction tasks as [|x tasks IH]; simpl; [done|].
  case_bool_decide as Hx; simpl.
  - rewrite bool_decide_eq_true_2 by done. by eexists.
  - rewrite bool_decide_eq_false_2 by done. exact IH.
Qed.

(** C3. Applying a [task:update] event twice leaves the cache as applying
    it once does. *)
Theorem handleTaskUpdate_idempotent (msg : TaskUpdate) (tasks : list Task) :
  handleTaskUpdate msg (handleTaskUpdate msg tasks) = handleTaskUpdate msg tasks.
Proof.
  destruct (find (λ t, bool_decide (id t = id (task msg))) tasks)
    as [existing|] eqn:Hfind.
  - assert (handleTaskUpdate msg tasks = updateInArray tasks (id (task msg)) (task msg))
      as -> by (unfold handleTaskUpdate; by rewrite Hfind).
    unfold handleTaskUpdate.
    destruct (find_updateInArray (task msg) tasks) as [x ->]; [by eexists|].
    apply updateInArray_idemp.
  - assert (handleTaskUpdate msg tasks = tasks ++ [task msg])
      as -> by (unfold handleTaskUpdate; by rewrite Hfind).
    unfold handleTaskUpdate, appendState.
    assert (find (λ t, bool_decide (id t = id (task msg))) (tasks ++ [task msg])
            = Some (task msg)) as ->.
    { clear -Hfind. induction tasks as [|x tasks IH]; simpl in *.
      - by rewrite bool_decide_eq_true_2.
      - destruct (bool_decide (id x = id (task msg))); [done|]. by apply IH. }
    unfold updateInArray. rewrite fmap_app. simpl.
    rewrite bool_decide_eq_true_2 by done. f_equal.
    by apply updateInArray_absent, find_none_ids.
Qed.

Lemma updateInArray_ids (t : Task) (tasks : list Task) :
  id <$> updateInArray tasks (id t) t = id <$> tasks.
Proof.
  unfold updateInArray. rewrite <- list_fmap_compose. apply list_fmap_ext.
  intros _ x _. simpl. by case_bool_decide.
Qed.

(** C4. When a task with the id of the event is in the list, the list
    keeps its length, every record with that id becomes the record of the
    event and every other record stays as it is; when there is none, the
    record of the event is inserted at the end. A list in which every id
    occurs once stays so, and there the record replaced is the only one with
    that id. *)
Theorem handleTaskUpdate_replaces_or_inserts (msg : TaskUpdate) (tasks : list Task) :
  ((∃ t0, t0 ∈ tasks ∧ id t0 = id (task msg)) →
     length (handleTaskUpdate msg tasks) = length tasks
     ∧ ∀ i t0, tasks !! i = Some t0 →
         handleTaskUpdate msg tasks !! i
         = Some (if bool_decide (id t0 = id (task msg)) then task msg else t0))
  ∧ ((∀ t0, t0 ∈ tasks → id t0 ≠ id (task msg)) →
       handleTaskUpdate msg tasks = tasks ++ [task msg])
  ∧ (NoDup (id <$> tasks) → NoDup (id <$> handleTaskUpdate msg tasks)).
Proof.
  unfold handleTaskUpdate. split; [|split].
  - intros (t0 & Hin & Hid).
    destruct (find _ tasks) as [existing|] eqn:Hfind.
    + unfold updateInArray. split; [apply length_fmap|].
      intros i t1 Hi. by rewrite list_lookup_fmap, Hi.
    + rewrite find_none_ids in Hfind. by destruct (Hfind t0 Hin).
  - intros Habsent. apply find_none_ids in Habsent. by rewrite Habsent.
  - intros Hnd. destruct (find _ tasks) as [existing|] eqn:Hfind.
    + by rewrite updateInArray_ids.
    + unfold appendState. rewrite fmap_app. apply NoDup_app. split; [done|].
      split; [|apply NoDup_singleton].
      intros i (t0 & -> & Hin)%list_elem_of_fmap [Heq|[]%elem_of_nil]%elem_of_cons.
      rewrite find_none_ids in Hfind. by destruct (Hfind t0 Hin).
Qed.

Lemma handleTaskUpdate_replaces_or_inserts_witness :
  handleTaskUpdate {| task := Sample.approvedTask |} Sample.cachedTasks !! 0
  = Some Sample.approvedTask
  ∧ handleTaskUpdate {| task := Sample.approvedTask |} [] = [Sample.approvedTask].
Proof.
  destruct (handleTaskUpdate_replaces_or_inserts
              {| task := Sample.approvedTask |} Sample.cachedTasks) as [Hreplace _].
  destruct (handleTaskUpdate_replaces_or_inserts {| task := Sample.approvedTask |} [])
    as (_ & Hinsert & _).
  split.
  - destruct Hreplace as [_ Hlookup].
    + eexists. split; [apply elem_of_cons; by left|reflexivity].
    + apply (Hlookup 0 {| id := 1; status := Pending; payload := "write";
                          createdAt := 10; resolvedBy := None |}).
      reflexivity.
  - apply Hinsert. by intros t0 ?%elem_of_nil.
Defined.

End TaskQueueClaims.

(** ** The claims about the task store *)

Module TaskStoreClaims.

Import TaskStore.

Lemma wf_empty : wf empty.
Proof. intros i t. unfold empty. simpl. by rewrite lookup_empty. Qed.

Lemma wf_put (t : Task) (s : Store) :
  wf s → is_Some (tasks s !! id t) → wf (put t s).
Proof.
  intros Hwf [t0 Ht0] i t'. unfold put. cbn [tasks nextId].
  destruct (decide (id t = i)) as [<-|Hne].
  - rewrite lookup_insert_eq. intros [= <-]. split; [done|]. by apply (Hwf _ t0).
  - rewrite lookup_insert_ne by done. apply Hwf.
Qed.

Lemma wf_call (c : Call) (s : Store) : wf s → wf (call c s).2.
Proof.
  intros Hwf. destruct c as [payload now|i decision clientId|i]; cbn [call].
  - unfold createTask. destruct (shutDown s); [done|]. cbn [snd].
    intros i t. cbn [tasks nextId]. destruct (decide (nextId s = i)) as [<-|Hne].
    + rewrite lookup_insert_eq. intros [= <-]. cbn [id]. lia.
    + rewrite lookup_insert_ne by done. intros [? ?]%Hwf. lia.
  - unfold resolveTask. destruct (tasks s !! i) as [t|] eqn:Ht; [|done].
    destruct (Hwf i t Ht) as [<- _].
    destruct (status t); try done. apply wf_put; [done|]. by eexists.
  - unfold markDone. destruct (tasks s !! i) as [t|] eqn:Ht; [|done].
    destruct (Hwf i t Ht) as [<- _].
    destruct (status t); try done. apply wf_put; [done|]. by eexists.
Qed.

Lemma run_snoc (calls : list Call) (c : Call) (s : Store) :
  run (calls ++ [c]) s = (call c (run calls s)).2.
Proof. unfold run. by rewrite fold_left_app. Qed.

Lemma wf_run (calls : list Call) (s : Store) : wf s → wf (run calls s).
Proof.
  revert s. induction calls as [|c calls IH]; intros s Hwf; [done|].
  apply IH. by apply wf_call.
Qed.

(** One call on a well-formed store: a task that is there stays, and its
    status stays or makes one move. *)
Lemma call_status (c : Call) (s : Store) (i : nat) (t : Task) :
  wf s → tasks s !! i = Some t →
  ∃ t', tasks (call c s).2 !! i = Some t'
        ∧ (status t' = status t ∨ transition (status t) (status t')).
Proof.
  intros Hwf Ht. unfold transition.
  destruct c as [payload now|j decision clientId|j]; cbn [call].
  - unfold createTask. destruct (shutDown s); cbn [snd tasks]; [by eauto|].
    destruct (Hwf i t Ht) as [_ Hlt].
    rewrite lookup_insert_ne by lia. by eauto.
  - unfold resolveTask. destruct (tasks s !! j) as [t0|] eqn:Ht0; [|by eauto].
    destruct (Hwf j t0 Ht0) as [Hid _].
    destruct (status t0) eqn:Hs0; cbn [snd]; try by eauto.
    unfold put. cbn [tasks id]. rewrite Hid.
    destruct (decide (j = i)) as [->|Hne].
    + rewrite lookup_insert_eq. eexists. split; [done|]. cbn [status].
      assert (t0 = t) as -> by congruence. rewrite Hs0.
      destruct decision; simpl; tauto.
    + rewrite lookup_insert_ne by done. by eauto.
  - unfold markDone. destruct (tasks s !! j) as [t0|] eqn:Ht0; [|by eauto].
    destruct (Hwf j t0 Ht0) as [Hid _].
    destruct (status t0) eqn:Hs0; cbn [snd]; try by eauto.
    unfold put. cbn [tasks id]. rewrite Hid.
    destruct (decide (j = i)) as [->|Hne].
    + rewrite lookup_insert_eq. eexists. split; [done|]. cbn [status].
      assert (t0 = t) as -> by congruence. rewrite Hs0. tauto.
    + rewrite lookup_insert_ne by done. by eauto.
Qed.

Lemma call_new_task (c : Call) (s : Store) (i : nat) (t : Task) :
  wf s → tasks s !! i = None → tasks (call c s).2 !! i = Some t → status t = Pending.
Proof.
  intros Hwf Hnone. destruct c as [payload now|j decision clientId|j]; cbn [call].
  - unfold createTask. destruct (shutDown s); cbn [snd tasks]; [congruence|].
    destruct (decide (nextId s = i)) as [<-|Hne].
    + rewrite lookup_insert_eq. by intros [= <-].
    + rewrite lookup_insert_ne by done. congruence.
  - unfold resolveTask. destruct (tasks s !! j) as [t0|] eqn:Ht0; [|cbn [snd]; congruence].
    destruct (Hwf j t0 Ht0) as [Hid _].
    destruct (status t0); cbn [snd]; try congruence.
    unfold put. cbn [tasks id]. rewrite Hid.
    rewrite lookup_insert_ne by congruence. congruence.
  - unfold markDone. destruct (tasks s !! j) as [t0|] eqn:Ht0; [|cbn [snd]; congruence].
    destruct (Hwf j t0 Ht0) as [Hid _].
    destruct (status t0); cbn [snd]; try congruence.
    unfold put. cbn [tasks id]. rewrite Hid.
    rewrite lookup_insert_ne by congruence. congruence.
Qed.

Lemma transition_not_to_pending (a b : Status) : transition a b → b ≠ Pending.
Proof. unfold transition. intros [[_ ->]|[[_ ->]|[_ ->]]]; done. Qed.

(** A sequence of calls: the status moves along transitions. *)
Lemma run_status (calls : list Call) (s : Store) (i : nat) (t : Task) :
  wf s → tasks s !! i = Some t →
  ∃ t', tasks (run calls s) !! i = Some t' ∧ rtc transition (status t) (status t').
Proof.
  revert s t. induction calls as [|c calls IH]; intros s t Hwf Ht.
  - exists t. by split.
  - destruct (call_status c s i t Hwf Ht) as (t1 & Ht1 & Hstep).
    destruct (IH (call c s).2 t1 (wf_call c s Hwf) Ht1) as (t' & Ht' & Hrtc).
    exists t'. split; [done|]. destruct Hstep as [Heq|Hstep].
    + by rewrite <- Heq.
    + by eapply rtc_l.
Qed.

Lemma rtc_transition_cases (a b : Status) :
  rtc transition a b →
  a = b ∨ (a = Pending ∧ b ≠ Pending) ∨ (a = Approved ∧ b = Done).
Proof.
  induction 1 as [a|a b c Hab _ IH]; [by left|].
  unfold transition in Hab.
  destruct Hab as [[-> ->]|[[-> ->]|[-> ->]]];
    destruct IH as [<-|[[? ?]|[? ?]]]; subst; try done;
    first [by right; left|by right; right].
Qed.

(** C1. In a store reached from the empty one by calls of [createTask],
    [resolveTask] and [markDone], every further call leaves the status of
    a task as it is or moves it by one of [pending → approved],
    [pending → rejected], [approved → done]; a task the call brings into the
    store is [pending]; and over any further sequence of calls the status
    is reached along such moves, so that a task that has left [pending]
    does not return to it, a [rejected] or [done] task stays so, and [done]
    is entered from [approved] only. *)
Theorem status_moves_forward (calls : list Call) (i : nat) (t : Task) :
  tasks (run calls empty) !! i = Some t →
  (∀ c, ∃ t', tasks (call c (run calls empty)).2 !! i = Some t'
              ∧ (status t' = status t ∨ transition (status t) (status t')))
  ∧ (∀ c j t', tasks (run calls empty) !! j = None →
       tasks (call c (run calls empty)).2 !! j = Some t' → status t' = Pending)
  ∧ (∀ more, ∃ t', tasks (run more (run calls empty)) !! i = Some t'
                   ∧ rtc transition (status t) (status t')
                   ∧ (status t ≠ Pending → status t' ≠ Pending)
                   ∧ (status t = Rejected → status t' = Rejected)
                   ∧ (status t = Done → status t' = Done))
  ∧ (∀ a, transition a Done → a = Approved)
  ∧ (∀ a, ¬ transition a Pending).
Proof.
  intros Ht. pose proof (wf_run calls empty wf_empty) as Hwf.
  split; [|split; [|split; [|split]]].
  - intros c. by apply call_status.
  - intros c j t'. by apply call_new_task.
  - intros more. destruct (run_status more _ i t Hwf Ht) as (t' & Ht' & Hrtc).
    exists t'. split; [done|]. split; [done|].
    apply rtc_transition_cases in Hrtc.
    repeat split; intros Hs; destruct Hrtc as [<-|[[? ?]|[? ?]]]; congruence.
  - unfold transition. intros a [[_ ?]|[[_ ?]|[? _]]]; done.
  - unfold transition. intros a [[_ ?]|[[_ ?]|[_ ?]]]; done.
Qed.

Lemma status_moves_forward_witness :
  ∃ t', tasks (call (CallMarkDone 0) (run Sample.resolvedCalls empty)).2 !! 0 = Some t'
        ∧ (status t' = Approved ∨ transition Approved (status t')).
Proof.
  apply (proj1 (status_moves_forward Sample.resolvedCalls 0
                  {| id := 0; status := Approved; payload := "write"; createdAt := 10;
                     resolvedBy := Some "client-a" |} eq_refl) (CallMarkDone 0)).
Defined.

(** C2. [resolveTask] on a task that exists and is not [pending] fails with
    [AlreadyResolved], returns the record as it is, and leaves the store,
    so every field of the record, unchanged. *)
Theorem resolveTask_already_resolved (s : Store) (i : nat) (decision : Decision)
    (clientId : string) (t : Task) :
  tasks s !! i = Some t → status t ≠ Pending →
  resolveTask i decision clientId s = (Failure AlreadyResolved (Some t), s)
  ∧ tasks (resolveTask i decision clientId s).2 !! i = Some t.
Proof.
  intros Ht Hs. unfold resolveTask. rewrite Ht.
  by destruct (status t).
Qed.

Lemma resolveTask_already_resolved_witness :
  resolveTask 0 rejected "client-b" (run Sample.resolvedCalls empty)
  = (Failure AlreadyResolved
       (Some {| id := 0; status := Approved; payload := "write"; createdAt := 10;
                resolvedBy := Some "client-a" |}),
     run Sample.resolvedCalls empty).
Proof.
  apply (resolveTask_already_resolved (run Sample.resolvedCalls empty) 0 rejected
           "client-b"); [reflexivity|discriminate].
Defined.

End TaskStoreClaims.

(** ** Further properties of the settings route *)

Module SettingsFacts.

Import Js Env JsFacts EnvFacts PostFacts SecretClaims Settings.

Lemma length_append (a b : string) :
  String.length (a +:+ b) = String.length a + String.length b.
Proof. induction a as [|c a IH]; [done|]. rewrite append_cons. simpl. by rewrite IH. Qed.

Lemma contains_dropStartWhile (p : ascii → bool) (c : ascii) (s : string) :
  contains c s = false → contains c (dropStartWhile p s) = false.
Proof.
  induction s as [|d s IH]; [done|]. simpl. intros [Hd Hs]%orb_false_iff.
  destruct (p d); [by apply IH|]. simpl. by rewrite Hd, Hs.
Qed.

Lemma contains_dropEndWhile (p : ascii → bool) (c : ascii) (s : string) :
  contains c s = false → contains c (dropEndWhile p s) = false.
Proof.
  induction s as [|d s IH]; [done|]. simpl. intros [Hd Hs]%orb_false_iff.
  specialize (IH Hs). destruct (dropEndWhile p s) as [|e t].
  - destruct (p d); [done|]. simpl. by rewrite Hd.
  - simpl in *. by rewrite Hd, IH.
Qed.

Lemma contains_trim (c : ascii) (s : string) :
  contains c s = false → contains c (trim s) = false.
Proof. intros H. by apply contains_dropEndWhile, contains_dropStartWhile. Qed.

Lemma contains_slice_to_indexOf (c : ascii) (s : string) (i : nat) :
  indexOf c s = Some i → contains c (slice_to i s) = false.
Proof.
  revert i. induction s as [|d s IH]; intros i; [done|]. simpl.
  case_bool_decide as Hd; [by intros [= <-]|].
  destruct (indexOf c s) as [j|]; [|done]. intros [= <-]. simpl.
  rewrite bool_decide_eq_false_2 by done. by apply IH.
Qed.

Lemma contains_slice_to (c : ascii) (n : nat) (s : string) :
  contains c s = false → contains c (slice_to n s) = false.
Proof.
  revert s. induction n as [|n IH]; intros s; [by destruct s|].
  destruct s as [|d s]; [done|]. simpl. intros [Hd Hs]%orb_false_iff.
  by rewrite Hd, IH.
Qed.

Lemma contains_slice_from (c : ascii) (n : nat) (s : string) :
  contains c s = false → contains c (slice_from n s) = false.
Proof.
  revert s. induction n as [|n IH]; intros s; [by destruct s|].
  destruct s as [|d s]; [done|]. simpl. intros [Hd Hs]%orb_false_iff. by apply IH.
Qed.

(** What is read off a line: a trimmed key without [=] and a trimmed
    value, neither with a line feed that the line does not have. *)
Lemma lineEntry_Some (line k v : string) :
  lineEntry line = Some (k, v) →
  trim k = k ∧ trim v = v ∧ contains "=" k = false
  ∧ (nl_free line → nl_free k ∧ nl_free v).
Proof.
  unfold lineEntry. destruct (negb _ || _); [done|].
  destruct (indexOf "=" (trim line)) as [i|] eqn:Hi; [|done].
  intros [= <- <-]. split; [apply trim_idemp|]. split; [apply trim_idemp|].
  split.
  - by apply contains_trim, contains_slice_to_indexOf.
  - unfold nl_free. intros Hline%contains_trim. split.
    + by apply contains_trim, contains_slice_to.
    + by apply contains_trim, (contains_slice_from NL (S i) (trim line)).
Qed.

Lemma lastVal_Some_elem (k v : string) (entries : list (string * string)) :
  lastVal k entries = Some v → (k, v) ∈ entries.
Proof.
  induction entries as [|[k' v'] r IH]; [done|]. simpl.
  destruct (lastVal k r) as [x|].
  - intros [= ->]. apply elem_of_cons. right. by apply IH.
  - case_bool_decide; [|done]. intros [= ->]. subst. apply elem_of_cons. by left.
Qed.

Lemma parse_fold_proto (lines : list string) (values : gmap string string) :
  fold_left parseLine lines values !! "__proto__" = values !! "__proto__".
Proof.
  revert values. induction lines as [|line lines IH]; intros values; [done|].
  cbn [fold_left]. rewrite IH, parseLine_lineEntry.
  destruct (lineEntry line) as [[k v]|]; [|done].
  unfold assign. case_bool_decide as Hk; [done|]. by rewrite lookup_insert_ne.
Qed.

Lemma parseEnvValues_proto (content : string) :
  parseEnvValues content !! "__proto__" = None.
Proof. unfold parseEnvValues. by rewrite parse_fold_proto. Qed.

(** The lookup of any key, [__proto__] included. *)
Lemma parseEnvValues_lookup' (content k : string) :
  parseEnvValues content !! k
  = if bool_decide (k = "__proto__") then None
    else lastVal k (omap lineEntry (split_nl content)).
Proof.
  case_bool_decide as Hk; [subst; apply parseEnvValues_proto|].
  by apply parseEnvValues_lookup.
Qed.

Lemma join_nl_cons (c : ascii) (h : string) (t : list string) :
  join_nl (String c h :: t) = String c (join_nl (h :: t)).
Proof. by destruct t. Qed.

(** [split] and [join] are inverse to one another. *)
Lemma join_split_nl (s : string) : join_nl (split_nl s) = s.
Proof.
  induction s as [|c s IH]; [done|]. cbn [split_nl].
  pose proof (split_nl_nonempty s) as Hne.
  destruct (is_nl c) eqn:Hc.
  - unfold is_nl in Hc. apply bool_decide_eq_true in Hc as ->.
    destruct (split_nl s) as [|h t] eqn:Hs; [done|].
    change (join_nl ("" :: h :: t)) with ("" +:+ String NL (join_nl (h :: t))).
    by rewrite IH.
  - destruct (split_nl s) as [|h t] eqn:Hs; [done|].
    by rewrite join_nl_cons, IH.
Qed.

Lemma dropEndWhile_app_drop (p : ascii → bool) (s : string) (c : ascii) :
  p c = true → dropEndWhile p (s +:+ String c "") = dropEndWhile p s.
Proof.
  intros Hc. induction s as [|d s IH].
  - rewrite append_nil_l. simpl. by rewrite Hc.
  - rewrite append_cons. simpl. by rewrite IH.
Qed.

(** Joined lines that hold no line feed and do not end with an empty line
    have no line feed at the end. *)
Lemma dropEndWhile_join (l : list string) :
  Forall nl_free l → last l ≠ Some "" → l ≠ [] →
  dropEndWhile is_nl (join_nl l) = join_nl l.
Proof.
  intros Hfree Hlast Hne.
  destruct (split_nl_replaceTrailingNewlines (join_nl l)) as (n & Hsplit & _).
  destruct (dropEndWhile_newlines (join_nl l)) as [m Hm].
  rewrite split_nl_join_free in Hsplit by done.
  destruct n as [|n].
  - rewrite List.app_nil_r in Hsplit.
    rewrite <- (join_split_nl (dropEndWhile is_nl (join_nl l))), <- Hsplit.
    done.
  - exfalso. apply Hlast. rewrite Hsplit.
    rewrite replicate_S_end, List.app_assoc. by rewrite last_snoc.
Qed.

(** The text that is written ends with exactly one line feed, so writing it
    again changes nothing. *)
Lemma replaceTrailingNewlines_idemp (s : string) :
  replaceTrailingNewlines (replaceTrailingNewlines s) = replaceTrailingNewlines s.
Proof.
  unfold replaceTrailingNewlines.
  rewrite dropEndWhile_app_drop by done. by rewrite dropEndWhile_idemp.
Qed.

Lemma filter_none {A : Type} (P : A → Prop) `{!∀ x, Decision (P x)} (l : list A) :
  (∀ x, x ∈ l → ¬ P x) → filter P l = [].
Proof.
  induction l as [|x l IH]; [done|]. intros Hall. rewrite filter_cons.
  rewrite decide_False by (apply Hall, elem_of_cons; by left).
  apply IH. intros y Hy. apply Hall, elem_of_cons. by right.
Qed.

Lemma filter_all {A : Type} (P : A → Prop) `{!∀ x, Decision (P x)} (l : list A) :
  (∀ x, x ∈ l → P x) → filter P l = l.
Proof.
  induction l as [|x l IH]; [done|]. intros Hall. rewrite filter_cons.
  rewrite decide_True by (apply Hall, elem_of_cons; by left).
  f_equal. apply IH. intros y Hy. apply Hall, elem_of_cons. by right.
Qed.

Lemma fmap_fixed {A : Type} (f : A → A) (l : list A) :
  (∀ x, x ∈ l → f x = x) → f <$> l = l.
Proof.
  induction l as [|x l IH]; [done|]. intros Hfix. rewrite fmap_cons.
  rewrite Hfix by (apply elem_of_cons; by left).
  f_equal. apply IH. intros y Hy. apply Hfix, elem_of_cons. by right.
Qed.

Section Rewritten.

Context (updates : Obj.t) (Hwf : wellFormed updates = true).

(** A line that has been written is written again as it is. *)
Lemma rewriteLine_updated (content line : string) :
  line ∈ updatedLines content updates → rewriteLine updates line = line.
Proof.
  destruct (wellFormed_spec updates Hwf) as [Hnd Hok].
  rewrite updatedLines_eq. intros [Hin|Hin]%elem_of_app.
  - apply list_elem_of_fmap in Hin as (l0 & -> & _).
    pose proof (lineEntry_rewriteLine updates Hwf l0) as Hentry.
    unfold rewriteLine at 1. rewrite Hentry.
    destruct (lineEntry l0) as [[k v0]|] eqn:Hl0; simpl.
    + unfold rewriteEntry. simpl. destruct (Obj.has updates k) eqn:Hhas.
      * rewrite Hhas. unfold rewriteLine. by rewrite Hl0, Hhas.
      * rewrite Hhas. unfold rewriteLine. by rewrite Hl0, Hhas.
    + unfold rewriteLine. by rewrite Hl0.
  - unfold newLines in Hin.
    apply list_elem_of_fmap in Hin as ([k v] & -> & [_ Hin]%list_elem_of_filter).
    destruct (Hok k v Hin) as (HkeyOk & _ & _).
    unfold rewriteLine, entryLine. simpl.
    rewrite lineEntry_assignment by done.
    pose proof (own_NoDup _ _ _ Hnd Hin) as Hown.
    rewrite has_own by (by eexists). unfold Obj.text. by rewrite Hown.
Qed.

(** Writing the same updates once more leaves the file as it is. *)
Lemma updateEnvContent_idemp (content : string) :
  updateEnvContent (updateEnvContent content updates) updates
  = updateEnvContent content updates.
Proof.
  destruct (wellFormed_spec updates Hwf) as [Hnd Hok].
  set (written := updateEnvContent content updates).
  assert (updatedLines written updates = split_nl written) as Hlines.
  { rewrite updatedLines_eq.
    assert (newLines (split_nl written) updates = []) as ->.
    { unfold newLines. rewrite filter_none; [done|].
      intros [k v] Hin Hnot. apply Hnot. simpl. unfold fileKeys.
      apply list_elem_of_fmap. exists (k, trim v). split; [done|].
      apply list_elem_of_omap. exists (k +:+ "=" +:+ v).
      destruct (Hok k v Hin) as (HkeyOk & Hk & Hv). split.
      - apply entryLine_written; [by apply own_NoDup|].
        unfold nl_free in *. by rewrite !contains_app, Hk, Hv.
      - by apply lineEntry_assignment. }
    rewrite List.app_nil_r. apply fmap_fixed.
    intros line Hline. unfold written, updateEnvContent in Hline.
    destruct (split_nl_replaceTrailingNewlines
                (join_nl (updatedLines content updates))) as (n & Hsplit & Hres).
    rewrite Hres in Hline.
    rewrite split_nl_join_free in Hsplit
      by (by apply updatedLines_nonempty || by apply updatedLines_nl_free).
    apply elem_of_app in Hline as [Hline|Hline].
    - apply (rewriteLine_updated content). rewrite Hsplit.
      apply elem_of_app. by left.
    - apply elem_of_cons in Hline as [->|[]%elem_of_nil]. done. }
  unfold updateEnvContent at 1. rewrite Hlines, join_split_nl.
  unfold written, updateEnvContent. apply replaceTrailingNewlines_idemp.
Qed.

End Rewritten.

Lemma entryLine_nonempty (kv : string * string) : entryLine kv ≠ "".
Proof. destruct kv as [[|c k] v]; done. Qed.

(** The lines written into an empty file. *)
Lemma updatedLines_empty (updates : Obj.t) :
  updatedLines "" updates = "" :: (entryLine <$> updates).
Proof.
  rewrite updatedLines_eq. cbn [split_nl fmap list_fmap].
  change (rewriteLine updates "") with "". unfold newLines.
  rewrite filter_all; [done|].
  intros kv _ Hin. unfold fileKeys in Hin. simpl in Hin. by apply elem_of_nil in Hin.
Qed.

Lemma insert_fold_idemp (l : Obj.t) (m : gmap string string) :
  fold_left (λ m kv, <[kv.1:=kv.2]> m) l
    (fold_left (λ m kv, <[kv.1:=kv.2]> m) l m)
  = fold_left (λ m kv, <[kv.1:=kv.2]> m) l m.
Proof.
  apply map_eq. intros k.
  assert (∀ m' : gmap string string,
            fold_left (λ m kv, <[kv.1:=kv.2]> m) l m' !! k
                = match lastVal k l with
                  | Some v => Some v
                  | None => m' !! k
                  end) as Hlookup.
  { clear. induction l as [|[k' v'] l IH]; intros m'; [done|].
    cbn [fold_left lastVal fst snd]. rewrite IH.
    destruct (lastVal k l); [done|]. case_bool_decide as Hk.
    - subst. apply lookup_insert_eq.
    - by apply lookup_insert_ne. }
  rewrite !Hlookup. by destruct (lastVal k l).
Qed.

(** The schema keys are not names that an object inherits. *)
Lemma schema_not_inherited (f : field) :
  f ∈ SETTINGS_SCHEMA → Obj.inheritedText (key f) = None.
Proof. unfold SETTINGS_SCHEMA. intros Hf. elem_cases ltac:(done). Qed.


Lemma own_None (o : Obj.t) (k : string) : k ∉ o.*1 → Obj.own o k = None.
Proof.
  intros Hk. destruct (Obj.own o k) as [v|] eqn:Hown; [|done].
  destruct Hk. apply list_elem_of_fmap. exists (k, v). split; [done|].
  by apply own_Some_elem.
Qed.

(** The server after a POST whose applied updates are distinct; nothing is
    written when no update is applied. *)
Lemma post_state (props : list (string * jsvalue)) (st : Server) :
  NoDup props.*1 →
  (post (JObject props) st).2
  = if bool_decide (applied props = []) then st
    else {| envFile := Some (updateEnvContent (readEnvFile st) (applied props));
            processEnv := fold_left (λ m kv, <[kv.1:=kv.2]> m) (applied props)
                            (processEnv st) |}.
Proof.
  intros Hnd. case_bool_decide as Ha; [|by apply post_applied].
  rewrite post_object by done. cbv zeta. cbn [snd objectEntries]. rewrite Ha.
  simpl. by destruct st.
Qed.

Lemma post_response (props : list (string * jsvalue)) (st : Server) :
  (post (JObject props) st).1 = Ok (existsb (λ kv, restartFlag kv.1) (applied props)).
Proof. by rewrite post_object. Qed.


End SettingsFacts.

Module SettingsExtras.

Import Js Env JsFacts EnvFacts PostFacts SecretClaims SettingsFacts Settings.

(** X1. The mask of a secret is empty exactly when the secret is; otherwise
    it starts with [****] and has at most eight characters. So every value
    that GET returns for a secret field is empty or starts with [****], and
    has at most eight characters: never more than the last four of the
    secret. *)
Theorem maskSecret_shape (v : string) :
  (maskSecret v = "" ↔ v = "")
  ∧ String.length (maskSecret v) ≤ 8
  ∧ (v ≠ "" → startsWith (maskSecret v) "****" = true)
  ∧ (∀ st f x, (f, x) ∈ get st → type f = secret →
       String.length x ≤ 8 ∧ (x = "" ∨ startsWith x "****" = true)).
Proof.
  assert (∀ w, (maskSecret w = "" ↔ w = "")
               ∧ String.length (maskSecret w) ≤ 8
               ∧ (w ≠ "" → startsWith (maskSecret w) "****" = true)) as Hmask.
  { intros w. unfold maskSecret. destruct w as [|c w].
    { simpl. repeat split; (done || lia). }
    cbn [truthy negb orb].
    destruct (String.length (String c w) <? 4) eqn:Hlen.
    { simpl. repeat split; (done || lia). }
    apply Nat.ltb_ge in Hlen. split; [done|]. split; [|done].
    rewrite length_append. unfold slice_last. rewrite slice_from_length.
    simpl in *. lia. }
  destruct (Hmask v) as (H1 & H2 & H3).
  split; [done|]. split; [done|]. split; [done|].
  intros st f x [_ ->]%get_keys Htype. unfold fieldValue. rewrite Htype.
  set (w := default "" _). destruct (Hmask w) as (Hw1 & Hw2 & Hw3).
  split; [done|].
  destruct (decide (w = "")) as [Hw|Hw]; [left; by apply Hw1|right; by apply Hw3].
Qed.

Lemma maskSecret_shape_witness :
  startsWith (maskSecret "sk-ant-0123456789") "****" = true
  ∧ String.length "****" ≤ 8.
Proof.
  destruct (maskSecret_shape "sk-ant-0123456789") as (_ & _ & Hstarts & Hget).
  split; [by apply Hstarts|].
  apply (Hget Sample.shortSecretServer
              (Field "ANTHROPIC_API_KEY" "Anthropic API Key" secret false []) "****");
    [|reflexivity].
  apply elem_of_cons. by left.
Defined.

(** X2. Every key that [parseEnvValues] returns comes from a line of the
    content; the key and the value are trimmed, the key holds no [=] and is
    not [__proto__], and neither holds a line feed. *)
Theorem parseEnvValues_entries (content k v : string) :
  parseEnvValues content !! k = Some v →
  trim k = k ∧ trim v = v ∧ contains "=" k = false ∧ k ≠ "__proto__"
  ∧ nl_free k ∧ nl_free v
  ∧ ∃ line, line ∈ split_nl content ∧ lineEntry line = Some (k, v).
Proof.
  rewrite parseEnvValues_lookup'. case_bool_decide as Hk; [done|].
  intros Hin%lastVal_Some_elem.
  apply list_elem_of_omap in Hin as (line & Hline & Hentry).
  destruct (lineEntry_Some line k v Hentry) as (H1 & H2 & H3 & Hfree).
  destruct Hfree as [H4 H5].
  { pose proof (split_nl_lines_free content) as Hall.
    rewrite Forall_forall in Hall. by apply Hall. }
  repeat split; try done. by exists line.
Qed.

Lemma parseEnvValues_entries_witness :
  trim "3000" = "3000" ∧ contains "=" "PORT" = false.
Proof.
  destruct (parseEnvValues_entries "  PORT = 3000 " "PORT" "3000" eq_refl)
    as (_ & Hv & Hk & _).
  split; [exact Hv|exact Hk].
Defined.

(** X3. Lines that come later override earlier ones: in a content made of
    two parts separated by a line feed, a key has the value of the second
    part when that part sets it, and the value of the first part
    otherwise. *)
Theorem parseEnvValues_later_wins (a b k : string) :
  parseEnvValues (a +:+ String NL b) !! k
  = match parseEnvValues b !! k with
    | Some v => Some v
    | None => parseEnvValues a !! k
    end.
Proof.
  rewrite !parseEnvValues_lookup'. case_bool_decide; [done|].
  by rewrite split_nl_app, omap_app, lastVal_app.
Qed.

(** X4. Writing well-formed updates a second time leaves the [.env] file
    as the first writing left it. *)
Theorem updateEnvFile_idempotent (updates : Obj.t) (st : Server) :
  wellFormed updates = true →
  updateEnvFile updates (updateEnvFile updates st) = updateEnvFile updates st.
Proof.
  intros Hwf. unfold updateEnvFile. cbn [processEnv]. f_equal.
  unfold readEnvFile at 1. cbn [envFile default from_option id]. f_equal.
  by apply updateEnvContent_idemp.
Qed.

Lemma updateEnvFile_idempotent_witness :
  updateEnvFile Sample.updates (updateEnvFile Sample.updates Sample.server)
  = updateEnvFile Sample.updates Sample.server.
Proof. apply updateEnvFile_idempotent. reflexivity. Defined.

(** X5. When there is no [.env] file, or an empty one, the file written
    for well-formed updates that are not empty is an empty line, one line
    [key=value] for every update in the order of the updates, and one line
    feed at the end. *)
Theorem updateEnvFile_first_write (updates : Obj.t) (st : Server) :
  wellFormed updates = true → updates ≠ [] →
  envFile st = None ∨ envFile st = Some "" →
  envFile (updateEnvFile updates st)
  = Some (String NL (join_nl (entryLine <$> updates)) +:+ String NL "")
  ∧ split_nl (String NL (join_nl (entryLine <$> updates)) +:+ String NL "")
    = "" :: (entryLine <$> updates) ++ [""].
Proof.
  intros Hwf Hne Hfile.
  assert (readEnvFile st = "") as Hread
    by (unfold readEnvFile; by destruct Hfile as [-> | ->]).
  assert (Forall nl_free ("" :: (entryLine <$> updates))) as Hfree.
  { rewrite <- updatedLines_empty. by apply updatedLines_nl_free. }
  assert (join_nl ("" :: (entryLine <$> updates))
          = String NL (join_nl (entryLine <$> updates))) as Hjoin.
  { destruct updates as [|kv r]; [done|]. by rewrite fmap_cons. }
  assert (dropEndWhile is_nl (join_nl ("" :: (entryLine <$> updates)))
          = join_nl ("" :: (entryLine <$> updates))) as Hdrop.
  { apply dropEndWhile_join; [done| |done].
    destruct updates as [|kv r]; [done|].
    rewrite fmap_cons, last_cons_cons, <- fmap_cons.
    intros ([k v] & Heq & _)%last_Some_elem_of%list_elem_of_fmap.
    by apply (entryLine_nonempty (k, v)). }
  split.
  - unfold updateEnvFile. cbn [envFile]. f_equal.
    unfold updateEnvContent, replaceTrailingNewlines.
    by rewrite Hread, updatedLines_empty, Hdrop, Hjoin.
  - rewrite <- Hjoin, split_nl_app, split_nl_join_free by done. done.
Qed.

Lemma updateEnvFile_first_write_witness :
  envFile (updateEnvFile [("PORT", "8080"); ("LIVEKIT_WS_URL", "wss://x")]
             {| envFile := None; processEnv := ∅ |})
  = Some (newlines 1 +:+ "PORT=8080" +:+ newlines 1 +:+ "LIVEKIT_WS_URL=wss://x"
          +:+ newlines 1).
Proof.
  apply (updateEnvFile_first_write [("PORT", "8080"); ("LIVEKIT_WS_URL", "wss://x")]
           {| envFile := None; processEnv := ∅ |}); [reflexivity|discriminate|by left].
Defined.



(** X7. Posting the same object a second time gives the same response and
    leaves the [.env] file and [process.env] as the first POST left them,
    when the applied values hold no line feed. *)
Theorem post_idempotent (st : Server) (props : list (string * jsvalue)) :
  NoDup props.*1 →
  (∀ k s, (k, JString s) ∈ props → k ∈ ALLOWED_KEYS → nl_free s) →
  post (JObject props) (post (JObject props) st).2 = post (JObject props) st.
Proof.
  intros Hnd Hfree.
  pose proof (applied_wellFormed props Hnd Hfree) as Hwf.
  apply injective_projections; [by rewrite !post_response|].
  rewrite (post_state props (post (JObject props) st).2) by done.
  rewrite (post_state props st) by done.
  case_bool_decide as Ha; [done|].
  f_equal.
  - f_equal. apply (updateEnvContent_idemp _ Hwf (readEnvFile st)).
  - apply insert_fold_idemp.
Qed.

Lemma post_idempotent_witness :
  post (JObject [("PORT", JString "8080")])
       (post (JObject [("PORT", JString "8080")]) Sample.server).2
  = post (JObject [("PORT", JString "8080")]) Sample.server.
Proof.
  apply post_idempotent.
  - apply NoDup_singleton.
  - intros k s [[= -> ->]|[]%elem_of_nil]%elem_of_cons _. reflexivity.
Defined.

(** X8. A body that is neither an object nor an array ([null],
    [undefined], a string, a number, a boolean) is answered with status 400
    and nothing is changed; every object and every array is answered
    [{ ok: true, ... }]. *)
Theorem post_rejects_non_objects (body : jsvalue) (st : Server) :
  ((∃ props, body = JObject props) ∨ (∃ items, body = JArray items) →
     ∃ restartNeeded, (post body st).1 = Ok restartNeeded)
  ∧ ((∀ props, body ≠ JObject props) → (∀ items, body ≠ JArray items) →
       post body st = (BadRequest "Expected object body", st)).
Proof.
  split.
  - intros [[props ->]|[items ->]]; rewrite post_object by done; by eexists.
  - intros Hobj Harr. apply post_not_object.
    destruct body as [| |b|n|s|items|props]; try done.
    + simpl. by rewrite andb_false_r.
    + simpl. by rewrite andb_false_r.
    + simpl. by rewrite andb_false_r.
    + by destruct (Harr items).
    + by destruct (Hobj props).
Qed.

Lemma post_rejects_non_objects_witness :
  post (JString "PORT=1") Sample.server = (BadRequest "Expected object body", Sample.server)
  ∧ ∃ restartNeeded, (post (JArray []) Sample.server).1 = Ok restartNeeded.
Proof.
  destruct (post_rejects_non_objects (JString "PORT=1") Sample.server) as [_ Hbad].
  destruct (post_rejects_non_objects (JArray []) Sample.server) as [Hok _].
  split; [by apply Hbad|]. apply Hok. right. by eexists.
Defined.

(** X9. The handler depends on its body only through the entries with an
    allow-listed key and a string value: it answers and leaves the server
    as on the object of these entries alone. An entry whose value is a
    number, a boolean, [null], an array or an object is ignored, and when no
    entry is left the answer is [restartNeeded: false] and nothing is
    written. *)
Theorem post_applied_only (body : jsvalue) (st : Server) :
  js_truthy body = true → typeof_object body = true →
  post body st
  = post (JObject ((λ kv, (kv.1, JString kv.2)) <$> applied (objectEntries body))) st
  ∧ (applied (objectEntries body) = [] → post body st = (Ok false, st)).
Proof.
  intros Ht Ho. split.
  - rewrite (post_object body), (post_object (JObject _)) by done.
    cbn [objectEntries].
    assert (applied ((λ kv : string * string, (kv.1, JString kv.2))
                       <$> applied (objectEntries body))
            = applied (objectEntries body)) as ->; [|done].
    generalize (objectEntries body). intros entries.
    induction entries as [|[k val] entries IH]; [done|].
    unfold applied at 2 3. cbn [omap list_omap fst snd]. fold (applied entries).
    case_bool_decide as Hk; [|exact IH].
    destruct val; try exact IH.
    rewrite fmap_cons. unfold applied at 1. cbn [omap list_omap fst snd].
    rewrite bool_decide_eq_true_2 by done.
    fold (applied ((λ kv : string * string, (kv.1, JString kv.2)) <$> applied entries)).
    by rewrite IH.
  - intros Ha. rewrite post_object by done. cbv zeta. rewrite Ha. simpl.
    by destruct st.
Qed.

Lemma post_applied_only_witness :
  post (JObject [("PORT", JNumber 8080); ("CLAUDE_MODEL", JNull)]) Sample.server
  = (Ok false, Sample.server).
Proof.
  apply (post_applied_only (JObject [("PORT", JNumber 8080); ("CLAUDE_MODEL", JNull)])
           Sample.server eq_refl eq_refl).
  reflexivity.
Defined.

(** X10. Where GET takes a value from. For a text or select field the
    value of the [.env] file is returned whenever the file sets the key,
    even to the empty string, and the value of [process.env] (the empty
    string when it has none) otherwise. For a secret field an empty value of
    the file counts as none: the mask is taken of the value of
    [process.env]. Without a [.env] file every value comes from
    [process.env]. *)
Theorem get_precedence (st : Server) (f : field) :
  f ∈ SETTINGS_SCHEMA →
  (type f ≠ secret →
     (∀ v, parseEnvValues (readEnvFile st) !! key f = Some v → (f, v) ∈ get st)
     ∧ (parseEnvValues (readEnvFile st) !! key f = None →
          (f, default "" (processEnv st !! key f)) ∈ get st))
  ∧ (type f = secret →
       parseEnvValues (readEnvFile st) !! key f = None
       ∨ parseEnvValues (readEnvFile st) !! key f = Some "" →
       (f, maskSecret (default "" (processEnv st !! key f))) ∈ get st)
  ∧ (envFile st = None →
       (f, match type f with
           | secret => maskSecret (default "" (processEnv st !! key f))
           | _ => default "" (processEnv st !! key f)
           end) ∈ get st).
Proof.
  intros Hf. pose proof (get_elem st f Hf) as Hget. unfold fieldValue in Hget.
  split; [|split].
  - intros Htype. split.
    + intros v Hv. rewrite Hv in Hget. by destruct (type f).
    + intros Hnone. rewrite Hnone in Hget.
      destruct (type f); [done| |]; by destruct (processEnv st !! key f).
  - intros Htype Hfile. rewrite Htype in Hget.
    assert (default "" (or_else (or_else (parseEnvValues (readEnvFile st) !! key f)
                                   (processEnv st !! key f)) (Some ""))
            = default "" (processEnv st !! key f)) as Heq.
    { destruct Hfile as [-> | ->]; simpl;
        destruct (processEnv st !! key f) as [[|c w]|]; done. }
    by rewrite Heq in Hget.
  - intros Hnone. unfold readEnvFile in Hget. rewrite Hnone in Hget.
    change (parseEnvValues (default "" None)) with (∅ : gmap string string) in Hget.
    rewrite lookup_empty in Hget.
    destruct (type f); [|by destruct (processEnv st !! key f)..].
    by destruct (processEnv st !! key f) as [[|c w]|].
Qed.

Lemma get_precedence_witness :
  (Field "PORT" "Server Port" text true [], "3000")
  ∈ get {| envFile := None; processEnv := {["PORT" := "3000"]} |}.
Proof.
  destruct (get_precedence {| envFile := None; processEnv := {["PORT" := "3000"]} |}
              (Field "PORT" "Server Port" text true [])) as (_ & _ & Hnone).
  - unfold SETTINGS_SCHEMA. do 5 (apply elem_of_cons; right). apply elem_of_cons. by left.
  - apply Hnone. reflexivity.
Defined.

(** X11. A POST leaves the other settings alone: for a field whose key the
    body does not set to a string, GET returns after the POST what it
    returned before, when the applied values hold no line feed. *)
Theorem post_keeps_other_fields (st : Server) (props : list (string * jsvalue))
    (f : field) :
  NoDup props.*1 →
  (∀ k s, (k, JString s) ∈ props → k ∈ ALLOWED_KEYS → nl_free s) →
  f ∈ SETTINGS_SCHEMA → (∀ s, (key f, JString s) ∉ props) →
  fieldValue (post (JObject props) st).2 f = fieldValue st f
  ∧ (f, fieldValue st f) ∈ get (post (JObject props) st).2.
Proof.
  intros Hnd Hfree Hf Hnot.
  assert (fieldValue (post (JObject props) st).2 f = fieldValue st f) as Heq.
  { rewrite post_state by done. case_bool_decide as Ha; [done|].
    pose proof (applied_wellFormed props Hnd Hfree) as Hwf.
    assert (key f ∉ (applied props).*1) as Hkey.
    { intros ([k s] & Hk & [Hin _]%applied_elem)%list_elem_of_fmap.
      simpl in Hk. subst k. by apply (Hnot s). }
    assert (Obj.has (applied props) (key f) = false) as Hhas.
    { unfold Obj.has. rewrite (own_None _ _ Hkey), (schema_not_inherited f Hf). done. }
    set (st' := {| envFile := _; processEnv := _ |}).
    assert (parseEnvValues (readEnvFile st') !! key f
            = parseEnvValues (readEnvFile st) !! key f) as Hparse
      by (by apply parse_updated_other).
    assert (processEnv st' !! key f = processEnv st !! key f) as Henv
      by (by apply insert_fold_lookup_other).
    unfold fieldValue. by rewrite Hparse, Henv. }
  split; [done|]. rewrite <- Heq. by apply get_elem.
Qed.

Lemma post_keeps_other_fields_witness :
  fieldValue (post (JObject [("CLAUDE_MODEL", JString "claude-opus-4-6")])
                Sample.server).2
    (Field "PORT" "Server Port" text true [])
  = "3000".
Proof.
  apply (post_keeps_other_fields Sample.server
           [("CLAUDE_MODEL", JString "claude-opus-4-6")]
           (Field "PORT" "Server Port" text true [])).
  - apply NoDup_singleton.
  - intros k s [[= -> ->]|[]%elem_of_nil]%elem_of_cons _. reflexivity.
  - unfold SETTINGS_SCHEMA. do 5 (apply elem_of_cons; right). apply elem_of_cons. by left.
  - intros s [[=]|[]%elem_of_nil]%elem_of_cons.
Defined.

End SettingsExtras.

(** ** Further properties of the room relay and of the settings form *)

Module ClientExtras.

Import Js Env JsFacts EnvFacts PostFacts SecretClaims SettingsFacts.

(** X12. What the handler of [RoomEvent.DataReceived] drops. A payload
    that is not JSON, or is the JSON [null], is logged by the [catch] and
    changes nothing else. A message of the local participant, and a message
    whose type is not [room:chat], leave the client as it is. *)
Theorem onDataReceived_drops (c : ScreenShare.Client) (participant : option string) :
  ScreenShare.onDataReceived None participant c = ScreenShare.warn c
  ∧ ScreenShare.onDataReceived (Some JNull) participant c = ScreenShare.warn c
  ∧ (∀ msg, msg ≠ JNull → msg ≠ JUndefined →
       participant = Some (ScreenShare.localIdentity c) →
       ScreenShare.onDataReceived (Some msg) participant c = c)
  ∧ (∀ msg type, getProp msg "type" = Some type →
       strictEqString type "room:chat" = false →
       ScreenShare.onDataReceived (Some msg) participant c = c).
Proof.
  split; [done|]. split; [done|]. split.
  - intros msg Hnull Hundef ->. unfold ScreenShare.onDataReceived.
    destruct (getProp msg "type") as [type|] eqn:Htype; [|by destruct msg].
    destruct (strictEqString type "room:chat"); [|done].
    by rewrite bool_decide_eq_false_2 by (by intros []).
  - intros msg type Htype Hother. unfold ScreenShare.onDataReceived.
    by rewrite Htype, Hother.
Qed.

Lemma onDataReceived_drops_witness :
  ScreenShare.onDataReceived (Some Sample.cognateMessage) (Some "user-a") Sample.client
  = Sample.client.
Proof.
  apply (onDataReceived_drops Sample.client (Some "user-a")); [discriminate..|reflexivity].
Defined.

(** X13. The handler only ever appends. Whatever the payload and the
    participant, the local identity stays, the room messages and the relayed
    messages received so far stay in place as a prefix of the new lists, no
    warning is taken back, and at most one thing happens: one room message
    appended, or one message relayed, or one warning logged. *)
Theorem onDataReceived_append_only (parsed : option jsvalue)
    (participant : option string) (c : ScreenShare.Client) :
  ScreenShare.localIdentity (ScreenShare.onDataReceived parsed participant c)
  = ScreenShare.localIdentity c
  ∧ ScreenShare.roomMessages c
    `prefix_of` ScreenShare.roomMessages (ScreenShare.onDataReceived parsed participant c)
  ∧ ScreenShare.cognateMessages c
    `prefix_of` ScreenShare.cognateMessages (ScreenShare.onDataReceived parsed participant c)
  ∧ ScreenShare.warnings c
    ≤ ScreenShare.warnings (ScreenShare.onDataReceived parsed participant c)
  ∧ length (ScreenShare.roomMessages (ScreenShare.onDataReceived parsed participant c))
    + length (ScreenShare.cognateMessages (ScreenShare.onDataReceived parsed participant c))
    + ScreenShare.warnings (ScreenShare.onDataReceived parsed participant c)
    ≤ S (length (ScreenShare.roomMessages c) + length (ScreenShare.cognateMessages c)
         + ScreenShare.warnings c).
Proof.
  assert (∀ c', c' = c ∨ c' = ScreenShare.warn c
                ∨ (∃ msg, c' = ScreenShare.appendRoomMessage msg c)
                ∨ (∃ text sender, c' = ScreenShare.injectCognateMessage text sender c) →
          ScreenShare.localIdentity c' = ScreenShare.localIdentity c
          ∧ ScreenShare.roomMessages c `prefix_of` ScreenShare.roomMessages c'
          ∧ ScreenShare.cognateMessages c `prefix_of` ScreenShare.cognateMessages c'
          ∧ ScreenShare.warnings c ≤ ScreenShare.warnings c'
          ∧ length (ScreenShare.roomMessages c') + length (ScreenShare.cognateMessages c')
            + ScreenShare.warnings c'
            ≤ S (length (ScreenShare.roomMessages c)
                 + length (ScreenShare.cognateMessages c) + ScreenShare.warnings c))
    as Hcases.
  { intros c' [->|[->|[[msg ->]|(text & sender & ->)]]]; simpl;
      unfold TaskQueue.appendState; rewrite ?length_app; simpl;
      repeat split; try done; try lia; by apply prefix_app_r. }
  apply Hcases. unfold ScreenShare.onDataReceived.
  destruct parsed as [msg|]; [|by right; left].
  destruct (getProp msg "type") as [type|]; [|by right; left].
  destruct (strictEqString type "room:chat"); [|by left].
  case_bool_decide; [|by left].
  destruct (getProp msg "text") as [text|]; [|by right; left].
  destruct (getProp msg "sender") as [sender|]; [|by right; left].
  destruct (js_truthy text); [|right; right; left; by eexists].
  destruct text; try (by right; left).
  destruct (startsWith s "cognate:").
  - right. right. right. by eexists _, _.
  - right. right. left. by eexists.
Qed.

(** X14. The sender handed on with relayed content is never falsy: it is
    [msg.sender] when that is truthy, else the identity of the participant
    when there is one and it is not empty, else ['unknown']. So when every
    relayed message held so far has a truthy sender, this is so after the
    handler too. *)
Theorem senderOf_truthy (sender : jsvalue) (participant : option string) :
  js_truthy (ScreenShare.senderOf sender participant) = true
  ∧ (js_truthy sender = true → ScreenShare.senderOf sender participant = sender)
  ∧ (js_truthy sender = false →
       ScreenShare.senderOf sender participant
       = match participant with
         | Some identity => if truthy identity then JString identity else JString "unknown"
         | None => JString "unknown"
         end)
  ∧ (∀ parsed c,
       Forall (λ m, js_truthy m.2 = true) (ScreenShare.cognateMessages c) →
       Forall (λ m, js_truthy m.2 = true)
         (ScreenShare.cognateMessages
            (ScreenShare.onDataReceived parsed participant c))).
Proof.
  assert (js_truthy (ScreenShare.senderOf sender participant) = true) as Htruthy.
  { unfold ScreenShare.senderOf. destruct (js_truthy sender) eqn:Hs; [done|].
    destruct participant as [[|a i]|]; done. }
  split; [done|]. split; [|split].
  - intros Hs. unfold ScreenShare.senderOf. by rewrite Hs.
  - intros Hs. unfold ScreenShare.senderOf. by rewrite Hs.
  - intros parsed c Hall. unfold ScreenShare.onDataReceived.
    destruct parsed as [msg|]; [|done].
    destruct (getProp msg "type") as [type|]; [|done].
    destruct (strictEqString type "room:chat"); [|done].
    case_bool_decide; [|done].
    destruct (getProp msg "text") as [text|]; [|done].
    destruct (getProp msg "sender") as [sender'|]; [|done].
    destruct (js_truthy text); [|done].
    destruct text; try done.
    destruct (startsWith s "cognate:"); [|done].
    cbn [ScreenShare.cognateMessages ScreenShare.injectCognateMessage].
    apply Forall_app. split; [done|]. apply Forall_singleton. simpl.
    unfold ScreenShare.senderOf. destruct (js_truthy sender') eqn:Hs; [done|].
    destruct participant as [[|a i]|]; done.
Qed.

Lemma senderOf_truthy_witness :
  ScreenShare.senderOf (JString "") (Some "user-b") = JString "user-b".
Proof.
  apply (proj1 (proj2 (proj2 (senderOf_truthy (JString "") (Some "user-b"))))).
  reflexivity.
Defined.

(** *** The save handler *)

Lemma set_elem (o : Obj.t) (k v : string) (e : string * string) :
  e ∈ Obj.set o k v → e = (k, v) ∨ e ∈ o.
Proof.
  induction o as [|[k' v'] o IH]; simpl.
  - intros [->|[]%elem_of_nil]%elem_of_cons. by left.
  - case_bool_decide.
    + intros [->|Hin]%elem_of_cons; [by left|]. right. apply elem_of_cons. by right.
    + intros [->|Hin]%elem_of_cons; [right; apply elem_of_cons; by left|].
      destruct (IH Hin) as [->|Ho]; [by left|]. right. apply elem_of_cons. by right.
Qed.

Lemma set_NoDup (o : Obj.t) (k v : string) : NoDup o.*1 → NoDup (Obj.set o k v).*1.
Proof.
  induction o as [|[k' v'] o IH]; cbn [Obj.set].
  - intros _. apply NoDup_singleton.
  - rewrite fmap_cons. intros [Hnot Hnd]%NoDup_cons. cbn [fst] in Hnot.
    case_bool_decide as Hk.
    + subst. rewrite fmap_cons. by apply NoDup_cons.
    + rewrite fmap_cons. apply NoDup_cons. split; [|by apply IH].
      cbn [fst]. intros [->|Hin]%set_keys; done.
Qed.

Lemma collect_NoDup (settings : list (Settings.field * string)) (updates : Obj.t)
    (input : SettingsPanel.Input) :
  NoDup updates.*1 → NoDup (SettingsPanel.collect settings updates input).*1.
Proof.
  intros Hnd. unfold SettingsPanel.collect. cbv zeta.
  repeat (destruct (_ && _); [done|]). by apply set_NoDup.
Qed.

Lemma collectUpdates_NoDup (settings : list (Settings.field * string))
    (inputs : list SettingsPanel.Input) :
  NoDup (SettingsPanel.collectUpdates settings inputs).*1.
Proof.
  unfold SettingsPanel.collectUpdates.
  assert (∀ updates : Obj.t,
            NoDup updates.*1 →
            NoDup (fold_left (SettingsPanel.collect settings) inputs updates).*1) as Hnd.
  { induction inputs as [|input inputs IH]; intros updates Hu; [done|].
    cbn [fold_left]. by apply IH, collect_NoDup. }
  apply Hnd, NoDup_nil_2.
Qed.

Lemma collectUpdates_elem (settings : list (Settings.field * string))
    (inputs : list SettingsPanel.Input) (k v : string) :
  (k, v) ∈ SettingsPanel.collectUpdates settings inputs →
  ∃ input, input ∈ inputs
    ∧ SettingsPanel.dataKey input = k
    ∧ v = trim (SettingsPanel.value input)
    ∧ ¬ (SettingsPanel.dataType input = "secret" ∧ v = "")
    ∧ (SettingsPanel.dataType input = "text"
       ∨ SettingsPanel.dataType input = "select" →
       v ≠ SettingsPanel.original settings k).
Proof.
  unfold SettingsPanel.collectUpdates.
  assert (∀ (updates : Obj.t),
            (k, v) ∈ fold_left (SettingsPanel.collect settings) inputs updates →
            (k, v) ∈ updates
            ∨ ∃ input, input ∈ inputs
                ∧ SettingsPanel.dataKey input = k
                ∧ v = trim (SettingsPanel.value input)
                ∧ ¬ (SettingsPanel.dataType input = "secret" ∧ v = "")
                ∧ (SettingsPanel.dataType input = "text"
                   ∨ SettingsPanel.dataType input = "select" →
                   v ≠ SettingsPanel.original settings k)) as Hsound.
  { induction inputs as [|input inputs IH]; intros updates; [by left|].
    cbn [fold_left]. intros [Hin|(input' & Hin' & Hrest)]%IH.
    - unfold SettingsPanel.collect in Hin. cbv zeta in Hin.
      destruct (bool_decide (SettingsPanel.dataType input = "secret")
                && negb (truthy (trim (SettingsPanel.value input)))) eqn:Hsecret;
        [by left|].
      destruct ((bool_decide (SettingsPanel.dataType input = "text")
                 || bool_decide (SettingsPanel.dataType input = "select"))
                && bool_decide (trim (SettingsPanel.value input)
                                = SettingsPanel.original settings
                                    (SettingsPanel.dataKey input))) eqn:Hsame;
        [by left|].
      apply set_elem in Hin as [[= -> ->]|Hin]; [|by left].
      right. exists input. split; [apply elem_of_cons; by left|].
      split; [done|]. split; [done|]. split.
      + intros [Htype Hval]. rewrite Htype, Hval in Hsecret. done.
      + intros Htype Hval. rewrite <- Hval in Hsame.
        rewrite (bool_decide_eq_true_2 (trim _ = trim _)) in Hsame by done.
        rewrite andb_true_r in Hsame. apply orb_false_iff in Hsame as [H1 H2].
        apply bool_decide_eq_false in H1, H2. tauto.
    - right. exists input'. split; [apply elem_of_cons; by right|done]. }
  by intros [[]%elem_of_nil|?]%Hsound.
Qed.

(** X15. What the form sends. The entries of the object that the save
    handler builds have distinct keys; every entry comes from an input with
    that key and carries its value trimmed; a secret is never sent empty,
    and a text or select value is never sent when it equals the value the
    form was opened with. *)
Theorem collectUpdates_sound (settings : list (Settings.field * string))
    (inputs : list SettingsPanel.Input) :
  NoDup (SettingsPanel.collectUpdates settings inputs).*1
  ∧ ∀ k v, (k, v) ∈ SettingsPanel.collectUpdates settings inputs →
      trim v = v
      ∧ ∃ input, input ∈ inputs
          ∧ SettingsPanel.dataKey input = k
          ∧ v = trim (SettingsPanel.value input)
          ∧ ¬ (SettingsPanel.dataType input = "secret" ∧ v = "")
          ∧ (SettingsPanel.dataType input = "text"
             ∨ SettingsPanel.dataType input = "select" →
             v ≠ SettingsPanel.original settings k).
Proof.
  split; [apply collectUpdates_NoDup|].
  intros k v Hin. pose proof (collectUpdates_elem _ _ _ _ Hin) as Hinput.
  split; [|done]. destruct Hinput as (input & _ & _ & -> & _). apply trim_idemp.
Qed.

Lemma collectUpdates_sound_witness :
  trim "8080" = "8080".
Proof.
  destruct (collectUpdates_sound []
              [ {| SettingsPanel.dataKey := "PORT"; SettingsPanel.dataType := "text";
                   SettingsPanel.value := " 8080 " |} ]) as [_ Hsent].
  apply (Hsent "PORT" "8080"). apply elem_of_cons. by left.
Defined.





End ClientExtras.
